(** * The 24-point solver of GAME-24.py

    A shallow embedding of [Game24.evaluate_expression],
    [Game24.find_all_solutions_from_numbers], [Game24.find_all_solutions],
    [Game24.has_solution] and [Card], of the deck ([Game24.__init__],
    [Game24._create_deck], [Game24.draw_cards]) and of [get_numbers_input],
    followed by the properties of the exhaustive solution search, of the
    deck and of the reading of the numbers.

    Conventions of the embedding:
    - a Python [Fraction] is a canonical rational [Qc] (lowest terms,
      positive denominator), which is the normal form [fractions.Fraction]
      keeps;
    - a raised exception is the [Raise] case of [result]; [try/except] is a
      [match] on it;
    - the interpreter is CPython with its default limit of 4300 digits on the
      conversions between [int] and [str], beyond which they raise
      [ValueError]; text is ASCII, one character per byte;
    - the [set] accumulated by the search is a [gset string]; the mutable
      objects alive during a search are gathered in the record [frame];
    - the operator symbols and the structure labels, which the source passes
      around as strings taken from two fixed lists, are the enumerations
      [op] and [structure], together with the strings they stand for. *)

From Stdlib Require Import ZArith QArith Qcanon Qcabs DecimalString Lia.
From stdpp Require Import gmap strings list sorting.

(** ** Exceptions *)

Inductive exn : Type :=
  | ZeroDivisionError
  | ValueError.

Inductive result (A : Type) : Type :=
  | Ok (a : A)
  | Raise (e : exn).

Arguments Ok {A} a.
Arguments Raise {A} e.

#[export] Instance result_ret : MRet result := fun A a => Ok a.
#[export] Instance result_bind : MBind result := fun A B f m =>
  match m with
  | Ok a => f a
  | Raise e => Raise e
  end.

(** ** Fractions *)

Module Fraction.

(** [Fraction(n)] for a Python [int]. *)
Definition of_int (n : Z) : Qc := Q2Qc (inject_Z n).

Definition numerator (x : Qc) : Z := Qnum (this x).
Definition denominator (x : Qc) : Z := Zpos (Qden (this x)).

(** The decimal writing of an integer: its digits, after a minus sign for
    a negative number. *)
Definition decimal (n : Z) : string := NilZero.string_of_int (Z.to_int n).

(** The number of decimal digits of an integer, the sign left out. *)
Definition digit_count (n : Z) : nat := String.length (decimal (Z.abs n)).

(** [sys.get_int_max_str_digits()], by default. *)
Definition int_max_str_digits : nat := 4300.

(** [str(n)] for a Python [int]: the decimal writing, and [ValueError] for
    an integer of more digits than the limit. *)
Definition int_str (n : Z) : result string :=
  if (int_max_str_digits <? digit_count n)%nat then Raise ValueError
  else Ok (decimal n).

(** [Fraction.__str__] (through which an f-string formats a fraction): the
    numerator alone when the denominator is 1, numerator/denominator
    otherwise. *)
Definition str (x : Qc) : result string :=
  if (denominator x =? 1)%Z then int_str (numerator x)
  else
    n ← int_str (numerator x);
    d ← int_str (denominator x);
    mret (n +:+ "/" +:+ d).

(** The fractions that [str] converts: numerator and denominator within the
    limit. *)
Definition printable (x : Qc) : bool :=
  (digit_count (numerator x) <=? int_max_str_digits)%nat
  && (digit_count (denominator x) <=? int_max_str_digits)%nat.

(** The string that [str] returns when it returns. *)
Definition repr (x : Qc) : string :=
  if (denominator x =? 1)%Z then decimal (numerator x)
  else decimal (numerator x) +:+ "/" +:+ decimal (denominator x).

(** The literal [1e-9] is the binary64 number m * 2^-82 with
    m = 4835703278458517.  [Fraction.__lt__] compares a fraction with a
    finite float through [Fraction.from_float], that is with this exact
    rational. *)
Definition float_1e_9_mantissa : Z := 4835703278458517.
Definition float_1e_9 : Qc :=
  Q2Qc (float_1e_9_mantissa # 4835703278458516698824704).

End Fraction.

(** ** Operators and structures *)

(** The elements of [operations = ['+', '-', '*', '/']]. *)
Inductive op : Type := Add | Sub | Mul | Div.

Definition op_str (o : op) : string :=
  match o with
  | Add => "+"
  | Sub => "-"
  | Mul => "*"
  | Div => "/"
  end.

Definition operations : list op := [Add; Sub; Mul; Div].

(** The elements of [structures], named after the place of the innermost
    and of the middle operator. *)
Inductive structure : Type :=
  | LeftLeft     (* ((a op1 b) op2 c) op3 d *)
  | LeftRight    (* (a op1 (b op2 c)) op3 d *)
  | Balanced     (* (a op1 b) op2 (c op3 d) *)
  | RightLeft    (* a op1 ((b op2 c) op3 d) *)
  | RightRight.  (* a op1 (b op2 (c op3 d)) *)

Definition structure_label (s : structure) : string :=
  match s with
  | LeftLeft => "((a op1 b) op2 c) op3 d"
  | LeftRight => "(a op1 (b op2 c)) op3 d"
  | Balanced => "(a op1 b) op2 (c op3 d)"
  | RightLeft => "a op1 ((b op2 c) op3 d)"
  | RightRight => "a op1 (b op2 (c op3 d))"
  end.

Definition structures : list structure :=
  [LeftLeft; LeftRight; Balanced; RightLeft; RightRight].

(** ** [Game24.evaluate_expression] *)

Definition apply_op (x y : Qc) (o : op) : result Qc :=
  match o with
  | Add => Ok (x + y)%Qc
  | Sub => Ok (x - y)%Qc
  | Mul => Ok (x * y)%Qc
  | Div => if decide (y = Fraction.of_int 0) then Raise ZeroDivisionError
           else Ok (x / y)%Qc
  end.

(** The [result = ...] line of each branch: three nested calls of
    [apply_op], the arguments of a call evaluated from left to right. *)
Definition structure_value (s : structure) (a b c d : Qc) (op1 op2 op3 : op)
  : result Qc :=
  match s with
  | LeftLeft =>
      x ← apply_op a b op1; y ← apply_op x c op2; apply_op y d op3
  | LeftRight =>
      x ← apply_op b c op2; y ← apply_op a x op1; apply_op y d op3
  | Balanced =>
      x ← apply_op a b op1; y ← apply_op c d op3; apply_op x y op2
  | RightLeft =>
      x ← apply_op b c op2; y ← apply_op x d op3; apply_op a y op1
  | RightRight =>
      x ← apply_op c d op3; y ← apply_op b x op2; apply_op a y op1
  end.

(** The [expr = f"..."] line of each branch: the operands are formatted
    from left to right, then the pieces are joined. *)
Definition structure_expr (s : structure) (a b c d : Qc) (op1 op2 op3 : op)
  : result string :=
  A ← Fraction.str a;
  B ← Fraction.str b;
  C ← Fraction.str c;
  D ← Fraction.str d;
  let O1 := op_str op1 in
  let O2 := op_str op2 in
  let O3 := op_str op3 in
  mret (String.concat ""
    match s with
    | LeftLeft =>
        ["(("; A; " "; O1; " "; B; ") "; O2; " "; C; ") "; O3; " "; D]
    | LeftRight =>
        ["("; A; " "; O1; " ("; B; " "; O2; " "; C; ")) "; O3; " "; D]
    | Balanced =>
        ["("; A; " "; O1; " "; B; ") "; O2; " ("; C; " "; O3; " "; D; ")"]
    | RightLeft =>
        [A; " "; O1; " (("; B; " "; O2; " "; C; ") "; O3; " "; D; ")"]
    | RightRight =>
        [A; " "; O1; " ("; B; " "; O2; " ("; C; " "; O3; " "; D; "))"]
    end).

(** [abs(result - 24) < 1e-9] *)
Definition near_24 (r : Qc) : bool :=
  bool_decide (Qcabs (r - Fraction.of_int 24) < Fraction.float_1e_9)%Qc.

(** The [try] block computes the value, then formats the expression, then
    compares; the [except] clause catches [ZeroDivisionError] and
    [ValueError], the two exceptions there are. *)
Definition evaluate_expression (a b c d : Qc) (op1 op2 op3 : op)
    (s : structure) : bool * string :=
  match
    r ← structure_value s a b c d op1 op2 op3;
    expr ← structure_expr s a b c d op1 op2 op3;
    mret (near_24 r, expr)
  with
  | Ok answer => answer
  | Raise _ => (false, "")
  end.

(** ** [itertools] *)

(** Every way to take one element out of a list, in the order of the
    positions, with the elements that remain. *)
Fixpoint picks {A : Type} (l : list A) : list (A * list A) :=
  match l with
  | [] => []
  | x :: l' => (x, l') :: ((fun yr => (fst yr, x :: snd yr)) <$> picks l')
  end.

Fixpoint permutations_of_length {A : Type} (n : nat) (l : list A)
  : list (list A) :=
  match n with
  | O => [[]]
  | S n' =>
      xr ← picks l; cons (fst xr) <$> permutations_of_length n' (snd xr)
  end.

(** [itertools.permutations(l)]: all the orderings of the positions of [l],
    in lexicographic order of the positions; equal values at different
    positions give repeated tuples. *)
Definition itertools_permutations {A : Type} (l : list A) : list (list A) :=
  permutations_of_length (length l) l.

(** [itertools.product(l, repeat=3)] *)
Definition itertools_product3 {A : Type} (l : list A) : list (A * A * A) :=
  x ← l; y ← l; z ← l; [(x, y, z)].

(** ** [Game24.find_all_solutions_from_numbers] *)

(** The mutable objects alive during a search: the caller's list [numbers]
    and the local set [solutions]. *)
Record frame : Type := Frame {
  numbers : list Qc;
  solutions : gset string
}.

(** [solutions.add(expr)] *)
Definition add_solution (expr : string) (fr : frame) : frame :=
  {| numbers := numbers fr; solutions := {[expr]} ∪ solutions fr |}.

(** The body of [for structure in structures]. *)
Definition structure_body (a b c d : Qc) (op1 op2 op3 : op)
    (fr : frame) (s : structure) : frame :=
  let '(is_solution, expr) := evaluate_expression a b c d op1 op2 op3 s in
  if is_solution then add_solution expr fr else fr.

(** The body of [for ops in itertools.product(operations, repeat=3)]. *)
Definition ops_body (a b c d : Qc) (fr : frame) (ops : op * op * op)
  : frame :=
  let '(op1, op2, op3) := ops in
  foldl (structure_body a b c d op1 op2 op3) fr structures.

(** [a, b, c, d = perm] *)
Definition unpack4 (perm : list Qc) : result (Qc * Qc * Qc * Qc) :=
  match perm with
  | [a; b; c; d] => Ok (a, b, c, d)
  | _ => Raise ValueError
  end.

(** The body of [for perm in permutations]. *)
Definition perm_body (fr : frame) (perm : list Qc) : result frame :=
  abcd ← unpack4 perm;
  let '(a, b, c, d) := abcd in
  mret (foldl (ops_body a b c d) fr (itertools_product3 operations)).

Fixpoint for_each_perm (fr : frame) (perms : list (list Qc))
  : result frame :=
  match perms with
  | [] => Ok fr
  | perm :: rest => fr' ← perm_body fr perm; for_each_perm fr' rest
  end.

(** The orderings tried: [[tuple(numbers)]] or
    [list(itertools.permutations(numbers))]. *)
Definition orderings (keep_order : bool) (fr : frame) : list (list Qc) :=
  if keep_order then [numbers fr] else itertools_permutations (numbers fr).

(** The function up to its [return]: the frame it leaves behind. *)
Definition search_frame (nums : list Qc) (keep_order : bool)
  : result frame :=
  let fr := {| numbers := nums; solutions := ∅ |} in
  for_each_perm fr (orderings keep_order fr).

(** [sorted] on strings: the order of [str] is the lexicographic order of
    the code points. *)
Definition sorted (l : list string) : list string := merge_sort String.le l.

(** The operands are [int] or [Fraction] values; both are given by their
    exact rational value, on which [Fraction(a)] is the identity. *)
Definition find_all_solutions_from_numbers (nums : list Qc)
    (keep_order : bool) : result (list string) :=
  fr ← search_frame nums keep_order;
  mret (sorted (elements (solutions fr))).

(** ** [int] on text

    [int(s)] for a string [s] of ASCII characters, in base 10: blanks
    around the number (C's [isspace]: the codes 9 to 13 and 32), an optional
    sign, then digits, where one underscore may stand between two digits;
    [ValueError] for any other text and for more digits than the limit. *)

Module Text.
Import Stdlib.Strings.Ascii.

Definition char_isdigit (c : ascii) : bool :=
  let n := N_of_ascii c in ((48 <=? n) && (n <=? 57))%N.

Definition char_isblank (c : ascii) : bool :=
  let n := N_of_ascii c in ((9 <=? n) && (n <=? 13) || (n =? 32))%N.

Fixpoint skip_blanks (s : string) : string :=
  match s with
  | EmptyString => EmptyString
  | String c s' => if char_isblank c then skip_blanks s' else s
  end.

(** The value of a string of digits. *)
Definition int_of_digits (s : string) : Z :=
  fold_left (fun acc c => (10 * acc + Z.of_N (N_of_ascii c - 48))%Z)
    (String.list_ascii_of_string s) 0%Z.

(** The digits at the head of a string, underscores dropped, with what
    follows them; [None] when there is no digit, or an underscore that is
    not between two digits.  [after_digit] tells whether the character
    before is a digit. *)
Fixpoint scan_digits (after_digit : bool) (s : string)
  : option (string * string) :=
  match s with
  | EmptyString =>
      if after_digit then Some (EmptyString, EmptyString) else None
  | String c s' =>
      if char_isdigit c then
        match scan_digits true s' with
        | Some (digits, rest) => Some (String c digits, rest)
        | None => None
        end
      else if Ascii.eqb c "_" then
        if after_digit then scan_digits false s' else None
      else if after_digit then Some (EmptyString, s)
      else None
  end.

Definition int (s : string) : result Z :=
  let s := skip_blanks s in
  let '(negative, s) :=
    match s with
    | String c s' =>
        if Ascii.eqb c "-" then (true, s')
        else if Ascii.eqb c "+" then (false, s')
        else (false, s)
    | EmptyString => (false, s)
    end in
  match scan_digits false s with
  | Some (digits, rest) =>
      match skip_blanks rest with
      | EmptyString =>
          if (Fraction.int_max_str_digits <? String.length digits)%nat
          then Raise ValueError
          else Ok (if negative then - int_of_digits digits
                   else int_of_digits digits)%Z
      | String _ _ => Raise ValueError
      end
  | None => Raise ValueError
  end.

End Text.

(** ** [Card], [Game24.find_all_solutions], [Game24.has_solution] *)

Record Card : Type := {
  suit : string;
  rank : string;
  value : Z
}.

(** [Card._get_value] *)
Definition _get_value (r : string) : result Z :=
  if String.eqb r "A" then Ok 1%Z
  else if String.eqb r "J" then Ok 11%Z
  else if String.eqb r "Q" then Ok 12%Z
  else if String.eqb r "K" then Ok 13%Z
  else Text.int r.

(** [Card(suit, rank)] *)
Definition Card_init (su r : string) : result Card :=
  v ← _get_value r;
  mret {| suit := su; rank := r; value := v |}.

Definition find_all_solutions (cards : list Card) : result (list string) :=
  let values := (fun card => Fraction.of_int (value card)) <$> cards in
  find_all_solutions_from_numbers values true.

Definition has_solution (cards : list Card) : result bool :=
  sols ← find_all_solutions cards;
  mret (0 <? length sols)%nat.

(** ** [Card.__str__], [Game24.__init__], [Game24._create_deck],
    [Game24.draw_cards] *)

#[export] Instance Card_eq_dec : EqDecision Card.
Proof. solve_decision. Defined.

(** A card whose value is one of 1 to 13. *)
Definition card_is_rank (card : Card) : Prop := (1 ≤ value card ≤ 13)%Z.

(** [Card.__str__] (and [__repr__]) *)
Definition Card_str (card : Card) : string := suit card +:+ rank card.

(** The inner loop of [_create_deck]: [deck.append(Card(suit, rank))] for
    each rank. *)
Fixpoint append_suit (su : string) (ranks : list string) (deck : list Card)
  : result (list Card) :=
  match ranks with
  | [] => Ok deck
  | r :: rest =>
      card ← Card_init su r;
      append_suit su rest (deck ++ [card])
  end.

(** The outer loop of [_create_deck]. *)
Fixpoint append_suits (suits ranks : list string) (deck : list Card)
  : result (list Card) :=
  match suits with
  | [] => Ok deck
  | su :: rest =>
      deck' ← append_suit su ranks deck;
      append_suits rest ranks deck'
  end.

(** [Game24._create_deck], on the attributes [self.suits] and
    [self.ranks]. *)
Definition _create_deck (suits ranks : list string) : result (list Card) :=
  append_suits suits ranks [].

Record Game24 : Type := {
  suits : list string;
  ranks : list string;
  deck : list Card
}.

(** [Game24.__init__] *)
Definition Game24_init : result Game24 :=
  let suits := ["♠"; "♥"; "♣"; "♦"] in
  let ranks :=
    ["A"; "2"; "3"; "4"; "5"; "6"; "7"; "8"; "9"; "10"; "J"; "Q"; "K"] in
  deck ← _create_deck suits ranks;
  mret {| suits := suits; ranks := ranks; deck := deck |}.

(** [Game24.draw_cards]: [random.sample(self.deck, num)] raises
    [ValueError] unless [0 <= num <= len(self.deck)] and otherwise returns
    [num] cards taken at distinct positions of the deck, in an order of its
    choice.  The possible outcomes of a call: *)
Definition draw_cards (game : Game24) (num : Z)
    (outcome : result (list Card)) : Prop :=
  if decide (0 ≤ num ≤ Z.of_nat (length (deck game)))%Z
  then ∃ hand, outcome = Ok hand ∧ Z.of_nat (length hand) = num ∧
               hand ⊆+ deck game
  else outcome = Raise ValueError.

(** ** [get_numbers_input]

    The lines read by [input] are taken as ASCII text, one character per
    byte.  On ASCII characters [str.isspace] holds of the codes 9 to 13, 28
    to 31 and 32, [str.isdigit] of the digits 0 to 9, and [str.upper] turns
    a to z into A to Z. *)

Module Input.
Import Stdlib.Strings.Ascii.

Definition char_isspace (c : ascii) : bool :=
  let n := N_of_ascii c in
  ((9 <=? n) && (n <=? 13) || (28 <=? n) && (n <=? 31) || (n =? 32))%N.

Definition char_upper (c : ascii) : ascii :=
  let n := N_of_ascii c in
  if ((97 <=? n) && (n <=? 122))%N then ascii_of_N (n - 32) else c.

Fixpoint string_forallb (f : ascii → bool) (s : string) : bool :=
  match s with
  | EmptyString => true
  | String c s' => f c && string_forallb f s'
  end.

Fixpoint string_existsb (f : ascii → bool) (s : string) : bool :=
  match s with
  | EmptyString => false
  | String c s' => f c || string_existsb f s'
  end.

Fixpoint string_map (f : ascii → ascii) (s : string) : string :=
  match s with
  | EmptyString => EmptyString
  | String c s' => String (f c) (string_map f s')
  end.

(** [s.upper()] *)
Definition upper (s : string) : string := string_map char_upper s.

(** [s.isdigit()]: at least one character, and digits only. *)
Definition isdigit (s : string) : bool :=
  match s with
  | EmptyString => false
  | _ => string_forallb Text.char_isdigit s
  end.

(** [s.lstrip()], [s.rstrip()], [s.strip()] *)
Fixpoint lstrip (s : string) : string :=
  match s with
  | EmptyString => EmptyString
  | String c s' => if char_isspace c then lstrip s' else s
  end.

Definition rstrip (s : string) : string := String.rev (lstrip (String.rev s)).

Definition strip (s : string) : string := rstrip (lstrip s).

(** [ch in s] for a character [ch] *)
Definition contains (ch : ascii) (s : string) : bool :=
  string_existsb (Ascii.eqb ch) s.

(** [s.startswith(ch)] and [s.endswith(ch)] for a character [ch] *)
Definition startswith (ch : ascii) (s : string) : bool :=
  match s with
  | String c _ => Ascii.eqb c ch
  | EmptyString => false
  end.

Definition endswith (ch : ascii) (s : string) : bool :=
  startswith ch (String.rev s).

(** [s[1:-1]] *)
Definition slice_1_minus_1 (s : string) : string :=
  match s with
  | EmptyString => EmptyString
  | String _ s' =>
      match String.rev s' with
      | EmptyString => EmptyString
      | String _ r => String.rev r
      end
  end.

(** [s.split(sep)] for a character [sep]: one more part than there are
    separators, empty parts kept. *)
Fixpoint split_on (sep : ascii) (s : string) : list string :=
  match s with
  | EmptyString => [EmptyString]
  | String c s' =>
      if Ascii.eqb c sep then EmptyString :: split_on sep s'
      else match split_on sep s' with
           | part :: parts => String c part :: parts
           | [] => [String c EmptyString]
           end
  end.

(** [s.split()]: the maximal runs of characters that are not blanks. *)
Fixpoint split_blanks (s : string) : list string :=
  match s with
  | EmptyString => []
  | String c s' =>
      if char_isspace c then split_blanks s'
      else match s' with
           | EmptyString => [String c EmptyString]
           | String c' _ =>
               if char_isspace c' then String c EmptyString :: split_blanks s'
               else match split_blanks s' with
                    | word :: words => String c word :: words
                    | [] => [String c EmptyString]
                    end
           end
  end.

(** [list(s)] *)
Fixpoint characters (s : string) : list string :=
  match s with
  | EmptyString => []
  | String c s' => String c EmptyString :: characters s'
  end.

(** The body of the conversion loop for one part; [ValueError] is the
    exception of the [else] branch. *)
Definition convert_part (part : string) : result Z :=
  let part := upper part in
  if String.eqb part "A" then Ok 1%Z
  else if String.eqb part "J" then Ok 11%Z
  else if String.eqb part "Q" then Ok 12%Z
  else if String.eqb part "K" then Ok 13%Z
  else if isdigit part then
    n ← Text.int part;
    if (1 <=? n)%Z && (n <=? 13)%Z then Ok n else Raise ValueError
  else Raise ValueError.

Fixpoint convert_parts (parts : list string) (numbers : list Z)
  : result (list Z) :=
  match parts with
  | [] => Ok numbers
  | part :: rest =>
      n ← convert_part part;
      convert_parts rest (numbers ++ [n])
  end.

(** Why a line is refused, by the message printed before [continue]. *)
Inductive refusal : Type :=
  | NoSeparator
  | WrongCount (n : nat)
  | InvalidNumber.

(** The parts of a line, before they are cleaned: [None] is the [continue]
    of the innermost [else]. *)
Definition split_line (user_input : string) : option (list string) :=
  if contains ","%char user_input then Some (split_on ","%char user_input)
  else if contains " "%char user_input then Some (split_blanks user_input)
  else if (String.length user_input =? 4)%nat
          && string_forallb
               (fun c => Text.char_isdigit c
                         || contains (char_upper c) "AJQK") user_input
       then Some (characters user_input)
  else None.

(** One round of the [while True] loop on the line read: the numbers
    returned, or the reason of the [continue]. *)
Definition parse_line (line : string) : list Z + refusal :=
  let user_input := strip line in
  let user_input :=
    if startswith "["%char user_input && endswith "]"%char user_input
    then slice_1_minus_1 user_input else user_input in
  match split_line user_input with
  | None => inr NoSeparator
  | Some parts =>
      let parts :=
        strip <$> filter (fun part => strip part ≠ EmptyString) parts in
      if negb (length parts =? 4)%nat then inr (WrongCount (length parts))
      else match convert_parts parts [] with
           | Ok numbers => inl numbers
           | Raise _ => inr InvalidNumber
           end
  end.

(** [get_numbers_input] on the lines that [input] will deliver: the numbers
    returned with the lines left unread, or [None] when the lines run out
    before one is accepted. *)
Fixpoint get_numbers_input (lines : list string)
  : option (list Z * list string) :=
  match lines with
  | [] => None
  | line :: rest =>
      match parse_line line with
      | inl numbers => Some (numbers, rest)
      | inr _ => get_numbers_input rest
      end
  end.

(** [str(numbers)] for a list of integers within the limit of digits, the
    form in which the numbers are printed back. *)
Definition list_str (numbers : list Z) : string :=
  "[" +:+ String.concat ", " (Fraction.decimal <$> numbers) +:+ "]".

End Input.

(** ** The forms of a line, for the properties of [get_numbers_input] *)

#[export] Instance refusal_eq_dec : EqDecision Input.refusal.
Proof. solve_decision. Defined.

(** The quadruples of integers from 1 to 13. *)
Definition rank_quadruples : list (list Z) :=
  n1 ← seqZ 1 13; n2 ← seqZ 1 13; n3 ← seqZ 1 13; n4 ← seqZ 1 13;
  [[n1; n2; n3; n4]].

(** Four numbers written as Python prints a list, separated by commas, and
    separated by blanks. *)
Definition written_forms (numbers : list Z) : list string :=
  [Input.list_str numbers;
   String.concat "," (Fraction.decimal <$> numbers);
   String.concat " " (Fraction.decimal <$> numbers)].

(** The characters that stand for a rank on their own, and the rank each
    stands for. *)
Definition rank_characters : list Ascii.ascii :=
  String.list_ascii_of_string "123456789AJQKajqk".

Definition rank_of_character (c : Ascii.ascii) : Z :=
  let n := Ascii.N_of_ascii c in
  if (n =? 65)%N || (n =? 97)%N then 1%Z
  else if (n =? 74)%N || (n =? 106)%N then 11%Z
  else if (n =? 81)%N || (n =? 113)%N then 12%Z
  else if (n =? 75)%N || (n =? 107)%N then 13%Z
  else Z.of_N (n - 48).

Definition character_quadruples : list (list Ascii.ascii) :=
  c1 ← rank_characters; c2 ← rank_characters; c3 ← rank_characters;
  c4 ← rank_characters; [[c1; c2; c3; c4]].

(** ** The search as the specification describes it

    Candidates as expression trees: the five structures are the five binary
    trees with four ordered leaves, a tree is evaluated bottom-up by the
    exact evaluator and printed with a pair of parentheses around every
    inner operation. *)

Inductive expression : Type :=
  | Num (x : Qc)
  | Bin (o : op) (l r : expression).

(** The exact evaluator: fails on a division by exact zero only. *)
Definition exact_apply (o : op) (x y : Qc) : option Qc :=
  match o with
  | Add => Some (x + y)%Qc
  | Sub => Some (x - y)%Qc
  | Mul => Some (x * y)%Qc
  | Div => if decide (y = Fraction.of_int 0) then None else Some (x / y)%Qc
  end.

Fixpoint eval (e : expression) : option Qc :=
  match e with
  | Num x => Some x
  | Bin o l r => x ← eval l; y ← eval r; exact_apply o x y
  end.

Definition show_operand (show : expression → string) (e : expression)
  : string :=
  match e with
  | Num x => Fraction.repr x
  | Bin _ _ _ => "(" +:+ show e +:+ ")"
  end.

Fixpoint show (e : expression) : string :=
  match e with
  | Num x => Fraction.repr x
  | Bin o l r =>
      show_operand show l +:+ " " +:+ op_str o +:+ " " +:+ show_operand show r
  end.

(** The documented nesting of each structure. *)
Definition shape (s : structure) (a b c d : Qc) (op1 op2 op3 : op)
  : expression :=
  match s with
  | LeftLeft => Bin op3 (Bin op2 (Bin op1 (Num a) (Num b)) (Num c)) (Num d)
  | LeftRight => Bin op3 (Bin op1 (Num a) (Bin op2 (Num b) (Num c))) (Num d)
  | Balanced => Bin op2 (Bin op1 (Num a) (Num b)) (Bin op3 (Num c) (Num d))
  | RightLeft => Bin op1 (Num a) (Bin op3 (Bin op2 (Num b) (Num c)) (Num d))
  | RightRight => Bin op1 (Num a) (Bin op2 (Num b) (Bin op3 (Num c) (Num d)))
  end.

(** A candidate: an ordering of the operands, an operator triple and a
    structure. *)
Record candidate : Type := Candidate {
  ordering : list Qc;
  operators : op * op * op;
  nesting : structure
}.

Definition candidate_expression (k : candidate) : option expression :=
  match ordering k, operators k with
  | [a; b; c; d], (op1, op2, op3) => Some (shape (nesting k) a b c d op1 op2 op3)
  | _, _ => None
  end.

(** The orderings: the given one, or all the permutations (stdpp's
    [permutations], which lists a permutation once per arrangement of the
    positions). *)
Definition spec_orderings (preserveOrder : bool) (operands : list Qc)
  : list (list Qc) :=
  if preserveOrder then [operands] else permutations operands.

Definition spec_candidates (operands : list Qc) (preserveOrder : bool)
  : list candidate :=
  p ← spec_orderings preserveOrder operands;
  op1 ← [Add; Sub; Mul; Div];
  op2 ← [Add; Sub; Mul; Div];
  op3 ← [Add; Sub; Mul; Div];
  s ← [LeftLeft; LeftRight; Balanced; RightLeft; RightRight];
  [Candidate p (op1, op2, op3) s].

(** A candidate is a solution for the acceptance test [accept] when its
    expression evaluates, without a division by zero, to an accepted value;
    [s] is then its formatted string. *)
Definition solution_of (accept : Qc → Prop) (k : candidate) (s : string)
  : Prop :=
  ∃ e r, candidate_expression k = Some e ∧ eval e = Some r ∧ accept r
         ∧ show e = s.

(** The two acceptance tests: the exact one of the specification and the
    one of the code. *)
Definition is_24 (r : Qc) : Prop := r = Fraction.of_int 24.
Definition within_tolerance (r : Qc) : Prop :=
  (Qcabs (r - Fraction.of_int 24) < Fraction.float_1e_9)%Qc.

(** The reference set of the specification: the strings of the candidates
    that are solutions. *)
Definition reference (accept : Qc → Prop) (operands : list Qc)
    (preserveOrder : bool) (s : string) : Prop :=
  ∃ k, k ∈ spec_candidates operands preserveOrder ∧ solution_of accept k s.

(** Card ranks as operands: the integers from 1 to 13. *)
Definition is_rank (x : Qc) : Prop :=
  ∃ n : Z, (1 ≤ n ≤ 13)%Z ∧ x = Fraction.of_int n.

(** ** Auxiliary notions of the proofs *)

(** The operands that the f-strings can format. *)
Definition printable_all (p : list Qc) : Prop :=
  forallb Fraction.printable p = true.

(** What one ordering contributes to the set of the search. *)
Definition hit (p : list Qc) (x : string) : Prop :=
  printable_all p ∧
  ∃ op1 op2 op3 s,
    solution_of within_tolerance (Candidate p (op1, op2, op3) s) x.

(** The reference set as a list, for a decidable acceptance test. *)
Definition solution_string (accept : Qc → bool) (k : candidate)
  : option string :=
  e ← candidate_expression k;
  r ← eval e;
  if accept r then Some (show e) else None.

Definition reference_list (accept : Qc → bool) (operands : list Qc)
    (preserveOrder : bool) : list string :=
  omap (solution_string accept) (spec_candidates operands preserveOrder).

(** A value [n/d] with [|n|] and [|d|] at most [B]. *)
Definition ratio_within (B : Z) (x : Qc) : Prop :=
  ∃ n d : Z, d ≠ 0%Z ∧ (Z.abs n ≤ B)%Z ∧ (Z.abs d ≤ B)%Z ∧
             (x * Fraction.of_int d)%Qc = Fraction.of_int n.

Fixpoint leaves (e : expression) : list Qc :=
  match e with
  | Num x => [x]
  | Bin _ l r => leaves l ++ leaves r
  end.

(** The bound on numerator and denominator of the value of a tree whose
    leaves are bounded by [M]: every operation at most doubles the product
    of the bounds of its operands. *)
Fixpoint ratio_bound (M : Z) (e : expression) : Z :=
  match e with
  | Num _ => M
  | Bin _ l r => 2 * (ratio_bound M l * ratio_bound M r)
  end.

(** The decimal number 0.000000001. *)
Definition decimal_1e_9 : Qc := Q2Qc (1 # 1000000000).

(** Integers of absolute value at most 105 as operands. *)
Definition is_small_integer (x : Qc) : Prop :=
  ∃ n : Z, (Z.abs n ≤ 105)%Z ∧ x = Fraction.of_int n.

(** * Properties *)

(** ** The structure table against the expression trees *)

Lemma string_app_nil (t : string) : "" +:+ t = t.
Proof. reflexivity. Qed.

Lemma string_app_cons (ch : Ascii.ascii) (s t : string) :
  String ch s +:+ t = String ch (s +:+ t).
Proof. reflexivity. Qed.

Lemma string_app_assoc (s1 s2 s3 : string) :
  (s1 +:+ s2) +:+ s3 = s1 +:+ (s2 +:+ s3).
Proof.
  induction s1 as [|ch s1 IH]; [reflexivity|].
  rewrite !string_app_cons. now rewrite IH.
Qed.

Lemma apply_op_exact (o : op) (x y : Qc) :
  apply_op x y o =
  match exact_apply o x y with
  | Some r => Ok r
  | None => Raise ZeroDivisionError
  end.
Proof.
  destruct o; simpl; try reflexivity.
  destruct (decide (y = Fraction.of_int 0)); reflexivity.
Qed.

(** Each branch of [evaluate_expression] computes the value of the tree of
    its structure. *)
Lemma structure_value_eval (s : structure) (a b c d : Qc) (op1 op2 op3 : op) :
  structure_value s a b c d op1 op2 op3 =
  match eval (shape s a b c d op1 op2 op3) with
  | Some r => Ok r
  | None => Raise ZeroDivisionError
  end.
Proof.
  destruct s; unfold structure_value, mbind, result_bind; cbn;
    repeat match goal with
      | |- context [apply_op ?x ?y ?o] =>
          rewrite (apply_op_exact o x y);
          destruct (exact_apply o x y) as [?|]; cbn
      end; reflexivity.
Qed.

(** ** Formatting *)

Lemma digit_count_1 :
  (Fraction.digit_count 1 <=? Fraction.int_max_str_digits)%nat = true.
Proof. reflexivity. Qed.

Lemma int_str_spec (n : Z) :
  Fraction.int_str n =
  if (Fraction.digit_count n <=? Fraction.int_max_str_digits)%nat
  then Ok (Fraction.decimal n) else Raise ValueError.
Proof.
  unfold Fraction.int_str.
  destruct (Nat.ltb_spec Fraction.int_max_str_digits (Fraction.digit_count n));
    destruct (Nat.leb_spec (Fraction.digit_count n)
                Fraction.int_max_str_digits); try reflexivity; lia.
Qed.

(** [str] returns the writing of the printable fractions and raises
    [ValueError] for the others. *)
Lemma Fraction_str_spec (x : Qc) :
  Fraction.str x =
  if Fraction.printable x then Ok (Fraction.repr x) else Raise ValueError.
Proof.
  unfold Fraction.str, Fraction.printable, Fraction.repr.
  rewrite !int_str_spec.
  destruct (Z.eqb_spec (Fraction.denominator x) 1) as [->|_].
  - rewrite digit_count_1, andb_true_r. reflexivity.
  - destruct (Fraction.digit_count (Fraction.numerator x) <=? _)%nat;
      destruct (Fraction.digit_count (Fraction.denominator x) <=? _)%nat;
      reflexivity.
Qed.

Lemma printable_all_4 (a b c d : Qc) :
  forallb Fraction.printable [a; b; c; d] =
  Fraction.printable a && Fraction.printable b && Fraction.printable c
  && Fraction.printable d.
Proof. cbn [forallb]. now rewrite andb_true_r, !andb_assoc. Qed.

(** Each template prints the tree of its structure, when the four operands
    are printable, and raises [ValueError] otherwise. *)
Lemma structure_expr_show (s : structure) (a b c d : Qc) (op1 op2 op3 : op) :
  structure_expr s a b c d op1 op2 op3 =
  if forallb Fraction.printable [a; b; c; d]
  then Ok (show (shape s a b c d op1 op2 op3)) else Raise ValueError.
Proof.
  unfold structure_expr. rewrite printable_all_4, !Fraction_str_spec.
  destruct (Fraction.printable a); [|reflexivity].
  destruct (Fraction.printable b); [|reflexivity].
  destruct (Fraction.printable c); [|reflexivity].
  destruct (Fraction.printable d); [|reflexivity].
  cbn [andb mbind result_bind mret result_ret]. f_equal.
  destruct s; cbn [shape show show_operand String.concat];
    repeat (rewrite ?string_app_assoc, ?string_app_cons, ?string_app_nil);
    reflexivity.
Qed.

(** ** [evaluate_expression] *)

Lemma near_24_spec (r : Qc) : near_24 r = true ↔ within_tolerance r.
Proof. unfold near_24, within_tolerance. apply bool_decide_eq_true. Qed.

(** The answer of [evaluate_expression] in all the cases. *)
Lemma evaluate_expression_spec (a b c d : Qc) (op1 op2 op3 : op)
    (s : structure) :
  evaluate_expression a b c d op1 op2 op3 s =
  match eval (shape s a b c d op1 op2 op3) with
  | Some r =>
      if forallb Fraction.printable [a; b; c; d]
      then (near_24 r, show (shape s a b c d op1 op2 op3))
      else (false, "")
  | None => (false, "")
  end.
Proof.
  unfold evaluate_expression.
  rewrite structure_value_eval, structure_expr_show.
  destruct (eval (shape s a b c d op1 op2 op3)) as [r|]; [|reflexivity].
  cbn [mbind result_bind].
  destruct (forallb Fraction.printable [a; b; c; d]); reflexivity.
Qed.

(** A candidate with a division by zero gives [(False, "")]. *)
Lemma evaluate_expression_zero_division (a b c d : Qc) (op1 op2 op3 : op)
    (s : structure) :
  eval (shape s a b c d op1 op2 op3) = None →
  evaluate_expression a b c d op1 op2 op3 s = (false, "").
Proof. intros He. now rewrite evaluate_expression_spec, He. Qed.

(** A candidate is reported as a solution exactly when its operands are
    printable, its tree has a value and the value passes the tolerance
    test; the string is then the printed tree. *)
Lemma evaluate_expression_true (a b c d : Qc) (op1 op2 op3 : op)
    (s : structure) (x : string) :
  evaluate_expression a b c d op1 op2 op3 s = (true, x) ↔
  printable_all [a; b; c; d] ∧
  solution_of within_tolerance (Candidate [a; b; c; d] (op1, op2, op3) s) x.
Proof.
  rewrite evaluate_expression_spec.
  unfold printable_all, solution_of, candidate_expression;
    cbn [ordering operators nesting].
  split.
  - destruct (eval (shape s a b c d op1 op2 op3)) as [r|] eqn:He;
      [|discriminate].
    destruct (forallb Fraction.printable [a; b; c; d]); [|discriminate].
    intros [= Hn Hx]. split; [reflexivity|].
    exists (shape s a b c d op1 op2 op3), r.
    rewrite near_24_spec in Hn. auto.
  - intros (Hp & e & r & [= <-] & -> & Hr & <-).
    rewrite Hp. apply near_24_spec in Hr. now rewrite Hr.
Qed.

(** ** The loops *)

Lemma add_solution_numbers (x : string) (fr : frame) :
  numbers (add_solution x fr) = numbers fr.
Proof. reflexivity. Qed.

Lemma structure_body_numbers a b c d op1 op2 op3 fr s :
  numbers (structure_body a b c d op1 op2 op3 fr s) = numbers fr.
Proof.
  unfold structure_body.
  destruct (evaluate_expression a b c d op1 op2 op3 s) as [[] x]; reflexivity.
Qed.

Lemma structure_body_solutions a b c d op1 op2 op3 fr s x :
  x ∈ solutions (structure_body a b c d op1 op2 op3 fr s) ↔
  x ∈ solutions fr ∨ evaluate_expression a b c d op1 op2 op3 s = (true, x).
Proof.
  unfold structure_body.
  destruct (evaluate_expression a b c d op1 op2 op3 s) as [[] y]; simpl.
  - rewrite elem_of_union, elem_of_singleton. split.
    + intros [->|H]; auto.
    + intros [H|[= ->]]; auto.
  - split; [auto|]. intros [H|H]; [assumption|discriminate].
Qed.

(** A loop whose body only adds strings to [solutions]. *)
Lemma foldl_frame {B : Type} (f : frame → B → frame)
    (adds : B → string → Prop) :
  (∀ fr y, numbers (f fr y) = numbers fr) →
  (∀ fr y x, x ∈ solutions (f fr y) ↔ x ∈ solutions fr ∨ adds y x) →
  ∀ l fr,
    numbers (foldl f fr l) = numbers fr ∧
    ∀ x, x ∈ solutions (foldl f fr l) ↔
         x ∈ solutions fr ∨ ∃ y, y ∈ l ∧ adds y x.
Proof.
  intros Hn Hs l. induction l as [|y l IH]; intros fr; simpl.
  - split; [reflexivity|]. intros x. split; [auto|].
    intros [H|(y & Hy & _)]; [assumption|]. inversion Hy.
  - destruct (IH (f fr y)) as [IHn IHs]. split.
    + now rewrite IHn, Hn.
    + intros x. rewrite IHs, Hs. split.
      * intros [[H|H]|(z & Hz & H)]; auto.
        -- right. exists y. split; [left|assumption].
        -- right. exists z. split; [now right|assumption].
      * intros [H|(z & Hz & H)]; auto.
        apply elem_of_cons in Hz as [->|Hz]; auto.
        right. eauto.
Qed.

Lemma all_structures (s : structure) : s ∈ structures.
Proof. destruct s; unfold structures; set_solver. Qed.

Lemma all_operations (o : op) : o ∈ operations.
Proof. destruct o; unfold operations; set_solver. Qed.

Lemma all_operator_triples (op1 op2 op3 : op) :
  (op1, op2, op3) ∈ itertools_product3 operations.
Proof.
  unfold itertools_product3.
  apply list_elem_of_bind. exists op1. split; [|apply all_operations].
  apply list_elem_of_bind. exists op2. split; [|apply all_operations].
  apply list_elem_of_bind. exists op3. split; [|apply all_operations].
  now left.
Qed.

Lemma ops_body_spec a b c d fr ops :
  numbers (ops_body a b c d fr ops) = numbers fr ∧
  ∀ x, x ∈ solutions (ops_body a b c d fr ops) ↔
       x ∈ solutions fr ∨
       printable_all [a; b; c; d] ∧
       ∃ s, solution_of within_tolerance (Candidate [a; b; c; d] ops s) x.
Proof.
  destruct ops as [[op1 op2] op3]. unfold ops_body.
  destruct (foldl_frame (structure_body a b c d op1 op2 op3)
              (λ s x, evaluate_expression a b c d op1 op2 op3 s = (true, x))
              (structure_body_numbers a b c d op1 op2 op3)
              (λ fr s x, structure_body_solutions a b c d op1 op2 op3 fr s x)
              structures fr) as [Hn Hs].
  split; [assumption|]. intros x. rewrite Hs. split.
  - intros [H|(s & _ & H)]; auto.
    right. apply evaluate_expression_true in H as [Hp H]. eauto.
  - intros [H|(Hp & s & H)]; auto.
    right. exists s. split; [apply all_structures|].
    now apply evaluate_expression_true.
Qed.

Lemma perm_body_spec a b c d fr :
  ∃ fr', perm_body fr [a; b; c; d] = Ok fr' ∧
         numbers fr' = numbers fr ∧
         ∀ x, x ∈ solutions fr' ↔ x ∈ solutions fr ∨ hit [a; b; c; d] x.
Proof.
  unfold perm_body. cbn [unpack4]. unfold mbind, result_bind, mret, result_ret.
  eexists. split; [reflexivity|].
  destruct (foldl_frame (ops_body a b c d)
              (λ ops x, printable_all [a; b; c; d] ∧
                        ∃ s, solution_of within_tolerance
                               (Candidate [a; b; c; d] ops s) x)
              (λ fr ops, proj1 (ops_body_spec a b c d fr ops))
              (λ fr ops, proj2 (ops_body_spec a b c d fr ops))
              (itertools_product3 operations) fr) as [Hn Hs].
  split; [assumption|]. intros x. rewrite Hs. unfold hit. split.
  - intros [H|([[op1 op2] op3] & _ & Hp & s & H)]; auto.
    right. eauto 6.
  - intros [H|(Hp & op1 & op2 & op3 & s & H)]; auto.
    right. exists (op1, op2, op3). split; [apply all_operator_triples|eauto].
Qed.

Lemma length_4_inv {A : Type} (p : list A) :
  length p = 4 → ∃ a b c d, p = [a; b; c; d].
Proof.
  destruct p as [|a [|b [|c [|d [|e p]]]]]; try discriminate.
  intros _. eauto.
Qed.

(** On orderings of four operands the outer loop runs to its end. *)
Lemma for_each_perm_spec (perms : list (list Qc)) (fr : frame) :
  Forall (λ p, length p = 4) perms →
  ∃ fr', for_each_perm fr perms = Ok fr' ∧
         numbers fr' = numbers fr ∧
         ∀ x, x ∈ solutions fr' ↔
              x ∈ solutions fr ∨ ∃ p, p ∈ perms ∧ hit p x.
Proof.
  intros Hlen. revert fr.
  induction Hlen as [|p perms Hp _ IH]; intros fr; cbn [for_each_perm].
  - exists fr. split; [reflexivity|]. split; [reflexivity|].
    intros x. split; [auto|].
    intros [H|(p & Hp & _)]; [assumption|]. inversion Hp.
  - destruct (length_4_inv p Hp) as (a & b & c & d & ->).
    destruct (perm_body_spec a b c d fr) as (fr1 & -> & Hn1 & Hs1).
    destruct (IH fr1) as (fr2 & Hrun & Hn2 & Hs2).
    exists fr2. split; [exact Hrun|]. split; [congruence|].
    intros x. rewrite Hs2, Hs1. split.
    + intros [[H|H]|(p & Hp' & H)]; auto.
      * right. exists [a; b; c; d]. split; [left|assumption].
      * right. exists p. split; [now right|assumption].
    + intros [H|(p & Hp' & H)]; auto.
      apply elem_of_cons in Hp' as [->|Hp']; auto.
      right. eauto.
Qed.

(** ** [itertools.permutations] lists the permutations *)

Lemma picks_Permutation {A : Type} (l : list A) (x : A) (r : list A) :
  (x, r) ∈ picks l → l ≡ₚ x :: r.
Proof.
  revert x r. induction l as [|y l IH]; intros x r; cbn [picks].
  - intros H. inversion H.
  - rewrite elem_of_cons, list_elem_of_fmap.
    intros [[= -> ->]|([z q] & [= -> ->] & Hz)]; [reflexivity|].
    cbn [fst snd]. rewrite (IH _ _ Hz). apply Permutation_swap.
Qed.

Lemma picks_complete {A : Type} (l : list A) (x : A) :
  x ∈ l → ∃ r, (x, r) ∈ picks l.
Proof.
  induction l as [|y l IH]; intros Hx; [inversion Hx|].
  apply elem_of_cons in Hx as [->|Hx]; cbn [picks].
  - exists l. left.
  - destruct (IH Hx) as [r Hr]. exists (y :: r).
    right. apply list_elem_of_fmap. exists (x, r). auto.
Qed.

Lemma permutations_of_length_spec {A : Type} (n : nat) (l p : list A) :
  length l = n → p ∈ permutations_of_length n l ↔ l ≡ₚ p.
Proof.
  revert l p. induction n as [|n IH]; intros l p Hn;
    cbn [permutations_of_length].
  - destruct l; [|discriminate]. rewrite list_elem_of_singleton. split.
    + now intros ->.
    + intros H. symmetry. now apply Permutation_nil_l.
  - rewrite list_elem_of_bind. split.
    + intros ([x r] & Hp & Hxr). cbn [fst snd] in Hp.
      apply list_elem_of_fmap in Hp as (q & -> & Hq).
      pose proof (picks_Permutation _ _ _ Hxr) as Hl.
      assert (length r = n) as Hr.
      { apply Permutation_length in Hl. cbn in Hl. lia. }
      apply (IH _ _ Hr) in Hq. now rewrite Hl, Hq.
    + intros Hlp. destruct p as [|x q].
      { apply Permutation_length in Hlp. cbn in Hlp. lia. }
      assert (x ∈ l) as Hx by (rewrite Hlp; left).
      destruct (picks_complete _ _ Hx) as [r Hxr].
      exists (x, r). split; [|assumption]. cbn [fst snd].
      apply list_elem_of_fmap. exists q. split; [reflexivity|].
      pose proof (picks_Permutation _ _ _ Hxr) as Hl.
      apply IH.
      * apply Permutation_length in Hl. cbn in Hl. lia.
      * apply (Permutation_cons_inv (a := x)). now rewrite <- Hl.
Qed.

Lemma itertools_permutations_spec {A : Type} (l p : list A) :
  p ∈ itertools_permutations l ↔ l ≡ₚ p.
Proof. now apply permutations_of_length_spec. Qed.

(** ** The orderings and the candidates *)

Lemma orderings_spec (keep_order : bool) (fr : frame) (p : list Qc) :
  p ∈ orderings keep_order fr ↔ p ∈ spec_orderings keep_order (numbers fr).
Proof.
  unfold orderings, spec_orderings. destruct keep_order; [reflexivity|].
  now rewrite itertools_permutations_spec, permutations_Permutation.
Qed.

Lemma spec_orderings_length (keep_order : bool) (nums p : list Qc) :
  p ∈ spec_orderings keep_order nums → length p = length nums.
Proof.
  unfold spec_orderings. destruct keep_order.
  - rewrite list_elem_of_singleton. now intros ->.
  - rewrite permutations_Permutation. intros H. symmetry.
    now apply Permutation_length.
Qed.

Lemma orderings_length_4 (keep_order : bool) (fr : frame) :
  length (numbers fr) = 4 →
  Forall (λ p, length p = 4) (orderings keep_order fr).
Proof.
  intros H4. apply Forall_forall. intros p Hp.
  apply orderings_spec, spec_orderings_length in Hp. congruence.
Qed.

Lemma elem_of_spec_candidates (nums : list Qc) (keep_order : bool)
    (k : candidate) :
  k ∈ spec_candidates nums keep_order ↔
  ordering k ∈ spec_orderings keep_order nums.
Proof.
  unfold spec_candidates. destruct k as [p [[op1 op2] op3] s]; cbn [ordering].
  rewrite list_elem_of_bind. split.
  - intros (q & Hk & Hq).
    repeat (apply list_elem_of_bind in Hk as (? & Hk & _)).
    apply list_elem_of_singleton in Hk as [= -> _ _ _ _]. exact Hq.
  - intros Hp. exists p. split; [|exact Hp].
    apply list_elem_of_bind. exists op1. split; [|apply all_operations].
    apply list_elem_of_bind. exists op2. split; [|apply all_operations].
    apply list_elem_of_bind. exists op3. split; [|apply all_operations].
    apply list_elem_of_bind. exists s. split; [|apply all_structures].
    now left.
Qed.

Lemma printable_all_Forall (p : list Qc) :
  printable_all p ↔ Forall (λ x, Fraction.printable x = true) p.
Proof.
  unfold printable_all. rewrite List.forallb_forall, Forall_forall.
  split; intros H x Hx; apply H; now apply list_elem_of_In.
Qed.

Lemma printable_all_Permutation (p q : list Qc) :
  p ≡ₚ q → printable_all p ↔ printable_all q.
Proof. intros H. rewrite !printable_all_Forall. now rewrite H. Qed.

Lemma spec_orderings_printable (keep_order : bool) (nums p : list Qc) :
  p ∈ spec_orderings keep_order nums →
  printable_all p ↔ printable_all nums.
Proof.
  unfold spec_orderings. destruct keep_order.
  - rewrite list_elem_of_singleton. now intros ->.
  - rewrite permutations_Permutation. intros H.
    symmetry. now apply printable_all_Permutation.
Qed.

(** The strings that the search returns: those of [reference], when the
    operands are printable, are the hits of the orderings. *)
Lemma reference_hit (nums : list Qc) (keep_order : bool) (x : string) :
  printable_all nums ∧ reference within_tolerance nums keep_order x ↔
  ∃ p, p ∈ spec_orderings keep_order nums ∧ hit p x.
Proof.
  unfold reference, hit. split.
  - intros (Hnums & [p [[op1 op2] op3] s] & Hk & Hsol).
    apply elem_of_spec_candidates in Hk. cbn [ordering] in Hk.
    exists p. split; [assumption|]. split; [|eauto].
    now apply (spec_orderings_printable keep_order nums).
  - intros (p & Hp & Hprint & op1 & op2 & op3 & s & Hsol). split.
    + now apply (spec_orderings_printable keep_order nums p).
    + exists (Candidate p (op1, op2, op3) s). split; [|assumption].
      now apply elem_of_spec_candidates.
Qed.

(** ** The search on four operands *)

Lemma search_frame_spec (a b c d : Qc) (keep_order : bool) :
  ∃ fr, search_frame [a; b; c; d] keep_order = Ok fr ∧
        numbers fr = [a; b; c; d] ∧
        ∀ x, x ∈ solutions fr ↔
             printable_all [a; b; c; d] ∧
             reference within_tolerance [a; b; c; d] keep_order x.
Proof.
  unfold search_frame.
  set (fr0 := {| numbers := [a; b; c; d]; solutions := ∅ |}).
  destruct (for_each_perm_spec (orderings keep_order fr0) fr0)
    as (fr & Hrun & Hn & Hs).
  { now apply orderings_length_4. }
  exists fr. split; [assumption|]. split; [assumption|].
  intros x. rewrite Hs, reference_hit. split.
  - intros [H|(p & Hp & H)]; [now apply not_elem_of_empty in H|].
    exists p. split; [|assumption]. now apply orderings_spec in Hp.
  - intros (p & Hp & H). right. exists p. split; [|assumption].
    now apply orderings_spec.
Qed.

(** ** [sorted] *)

Lemma sorted_Sorted (l : list string) : Sorted String.le (sorted l).
Proof. apply Sorted_merge_sort, _. Qed.

Lemma sorted_Permutation (l : list string) : sorted l ≡ₚ l.
Proof. apply merge_sort_Permutation. Qed.

(** The result of [sorted] does not depend on the order in which the
    elements come. *)
Lemma sorted_order_independent (l1 l2 : list string) :
  l1 ≡ₚ l2 → sorted l1 = sorted l2.
Proof.
  intros H. apply (Sorted_unique String.le); try apply sorted_Sorted.
  now rewrite !sorted_Permutation.
Qed.

Lemma find_all_solutions_from_numbers_frame (nums : list Qc)
    (keep_order : bool) (fr : frame) :
  search_frame nums keep_order = Ok fr →
  find_all_solutions_from_numbers nums keep_order =
  Ok (sorted (elements (solutions fr))).
Proof.
  intros H. unfold find_all_solutions_from_numbers. now rewrite H.
Qed.

Lemma elem_of_sorted_elements (S : gset string) (x : string) :
  x ∈ sorted (elements S) ↔ x ∈ S.
Proof. now rewrite sorted_Permutation, elem_of_elements. Qed.

Lemma NoDup_sorted_elements (S : gset string) : NoDup (sorted (elements S)).
Proof. rewrite sorted_Permutation. apply NoDup_elements. Qed.

Lemma length_sorted_elements (S : gset string) :
  length (sorted (elements S)) = size S.
Proof. now rewrite sorted_Permutation. Qed.

(** ** Integers among the fractions *)

Lemma of_int_this (n : Z) : (this (Fraction.of_int n) == inject_Z n)%Q.
Proof. unfold Fraction.of_int. cbn [this Q2Qc]. apply Qred_correct. Qed.

Lemma of_int_add (m n : Z) :
  Fraction.of_int (m + n) = (Fraction.of_int m + Fraction.of_int n)%Qc.
Proof.
  apply Qc_is_canon. cbn [this Qcplus Q2Qc].
  rewrite Qred_correct, !of_int_this, inject_Z_plus. reflexivity.
Qed.

Lemma of_int_mul (m n : Z) :
  Fraction.of_int (m * n) = (Fraction.of_int m * Fraction.of_int n)%Qc.
Proof.
  apply Qc_is_canon. cbn [this Qcmult Q2Qc].
  rewrite Qred_correct, !of_int_this, inject_Z_mult. reflexivity.
Qed.

Lemma of_int_opp (n : Z) :
  Fraction.of_int (- n) = (- Fraction.of_int n)%Qc.
Proof.
  apply Qc_is_canon. cbn [this Qcopp Q2Qc].
  rewrite Qred_correct, !of_int_this, inject_Z_opp. reflexivity.
Qed.

Lemma of_int_le (m n : Z) :
  (m ≤ n)%Z ↔ (Fraction.of_int m ≤ Fraction.of_int n)%Qc.
Proof. unfold Qcle. rewrite !of_int_this, Zle_Qle. reflexivity. Qed.

Lemma of_int_inj (m n : Z) : Fraction.of_int m = Fraction.of_int n → m = n.
Proof.
  intros H. apply (f_equal this) in H.
  apply inject_Z_injective. now rewrite <- !of_int_this, H.
Qed.

Lemma of_int_abs (n : Z) :
  Qcabs (Fraction.of_int n) = Fraction.of_int (Z.abs n).
Proof.
  apply Qc_is_canon.
  change (Qabs.Qabs (this (Fraction.of_int n))
          == this (Fraction.of_int (Z.abs n)))%Q.
  rewrite !of_int_this. reflexivity.
Qed.

(** ** How far from 24 a value can be *)

Lemma abs_mul_le (a b A B : Z) :
  (Z.abs a ≤ A)%Z → (Z.abs b ≤ B)%Z → (Z.abs (a * b) ≤ A * B)%Z.
Proof.
  intros Ha Hb. rewrite Z.abs_mul.
  apply Z.mul_le_mono_nonneg; auto using Z.abs_nonneg.
Qed.

Lemma ratio_within_of_int (B n : Z) :
  (1 ≤ B)%Z → (Z.abs n ≤ B)%Z → ratio_within B (Fraction.of_int n).
Proof.
  intros HB Hn. exists n, 1%Z. repeat split; try assumption; try lia.
  change (Fraction.of_int 1) with 1%Qc. ring.
Qed.

Lemma ratio_within_mono (B B' : Z) (x : Qc) :
  (B ≤ B')%Z → ratio_within B x → ratio_within B' x.
Proof.
  intros HB (n & d & Hd & Hn & Hd' & Hx). exists n, d.
  repeat split; try assumption; lia.
Qed.

Lemma ratio_within_nonzero (B : Z) (x : Qc) (n d : Z) :
  d ≠ 0%Z → (x * Fraction.of_int d)%Qc = Fraction.of_int n →
  x ≠ Fraction.of_int 0 → n ≠ 0%Z.
Proof.
  intros Hd Hx Hx0 ->. apply Qcmult_integral in Hx as [Hx|Hx].
  - contradiction.
  - now apply of_int_inj in Hx.
Qed.

Lemma exact_apply_ratio (o : op) (B1 B2 : Z) (x y r : Qc) :
  ratio_within B1 x → ratio_within B2 y → exact_apply o x y = Some r →
  ratio_within (2 * (B1 * B2)) r.
Proof.
  intros (n1 & d1 & Hd1 & Hn1 & Hd1' & Hx) (n2 & d2 & Hd2 & Hn2 & Hd2' & Hy).
  pose proof (abs_mul_le _ _ _ _ Hn1 Hd2') as H12.
  pose proof (abs_mul_le _ _ _ _ Hn2 Hd1') as H21.
  pose proof (abs_mul_le _ _ _ _ Hd1' Hd2') as Hdd.
  pose proof (abs_mul_le _ _ _ _ Hn1 Hn2) as Hnn.
  pose proof (abs_mul_le _ _ _ _ Hd1' Hn2) as Hdn.
  pose proof (Z.abs_nonneg (n1 * d2)). pose proof (Z.abs_nonneg (d1 * d2)).
  destruct o; cbn [exact_apply].
  - intros [= <-]. exists (n1 * d2 + n2 * d1)%Z, (d1 * d2)%Z.
    repeat split; [lia|lia|lia|].
    rewrite of_int_add, !of_int_mul, <- Hx, <- Hy. ring.
  - intros [= <-]. exists (n1 * d2 - n2 * d1)%Z, (d1 * d2)%Z.
    repeat split; [lia|lia|lia|].
    replace (n1 * d2 - n2 * d1)%Z with (n1 * d2 + (- n2) * d1)%Z by ring.
    rewrite of_int_add, !of_int_mul.
    rewrite of_int_opp, <- Hx, <- Hy. ring.
  - intros [= <-]. exists (n1 * n2)%Z, (d1 * d2)%Z.
    repeat split; [lia|lia|lia|].
    rewrite !of_int_mul, <- Hx, <- Hy. ring.
  - destruct (decide (y = Fraction.of_int 0)) as [|Hy0]; [discriminate|].
    intros [= <-].
    pose proof (ratio_within_nonzero B2 y n2 d2 Hd2 Hy Hy0) as Hn2'.
    exists (n1 * d2)%Z, (d1 * n2)%Z.
    repeat split; [lia|lia|lia|].
    rewrite !of_int_mul, <- Hx, <- Hy. field. exact Hy0.
Qed.

(** A value [n/d] other than 24 is at least [1/|d|] away from 24. *)
Lemma ratio_gap (B : Z) (x : Qc) :
  ratio_within B x → x ≠ Fraction.of_int 24 →
  (1 ≤ Qcabs (x - Fraction.of_int 24) * Fraction.of_int B)%Qc.
Proof.
  intros (n & d & Hd & _ & Hd' & Hx) Hne.
  assert ((x - Fraction.of_int 24) * Fraction.of_int d
          = Fraction.of_int (n - 24 * d))%Qc as Hk.
  { replace (n - 24 * d)%Z with (n + - (24 * d))%Z by ring.
    rewrite of_int_add, of_int_opp, of_int_mul, <- Hx. ring. }
  assert (n - 24 * d ≠ 0)%Z as Hk0.
  { intros H0. rewrite H0 in Hk.
    apply Qcmult_integral in Hk as [Hk|Hk].
    - apply Hne. rewrite <- (Qcplus_0_l (Fraction.of_int 24)), <- Hk. ring.
    - now apply of_int_inj in Hk. }
  apply (f_equal Qcabs) in Hk. rewrite Qcabs_Qcmult, !of_int_abs in Hk.
  apply Qcle_trans with (Qcabs (x - Fraction.of_int 24)
                         * Fraction.of_int (Z.abs d))%Qc.
  - rewrite Hk. change 1%Qc with (Fraction.of_int 1).
    apply (proj1 (of_int_le _ _)). lia.
  - rewrite !(Qcmult_comm (Qcabs _)).
    apply Qcmult_le_compat_r; [|apply Qcabs_nonneg].
    now apply (proj1 (of_int_le _ _)).
Qed.

(** A value [n/d] other than 24 is farther from 24 than any [t] with
    [t * B < 1]. *)
Lemma ratio_far (B : Z) (x t : Qc) :
  ratio_within B x → x ≠ Fraction.of_int 24 →
  (t * Fraction.of_int B < 1)%Qc →
  (t < Qcabs (x - Fraction.of_int 24))%Qc.
Proof.
  intros Hx Hne Ht. pose proof (ratio_gap B x Hx Hne) as Hgap.
  apply Qclt_nge. intros Hle.
  assert (0 ≤ Fraction.of_int B)%Qc as HB0.
  { destruct Hx as (n & d & Hd & _ & Hd' & _).
    change 0%Qc with (Fraction.of_int 0).
    apply (proj1 (of_int_le _ _)). lia. }
  apply (Qcmult_le_compat_r _ _ _ Hle) in HB0.
  apply (Qclt_not_le _ _ Ht). now apply Qcle_trans with (1 := Hgap).
Qed.

(** When the bound is small against the tolerance, the tolerance test and
    the exact test accept the same values. *)
Lemma tolerance_exact (B : Z) (x : Qc) :
  ratio_within B x →
  (Fraction.float_1e_9 * Fraction.of_int B < 1)%Qc →
  within_tolerance x ↔ is_24 x.
Proof.
  intros Hx HB. unfold within_tolerance, is_24. split.
  - intros Htol. destruct (decide (x = Fraction.of_int 24)) as [|Hne];
      [assumption|exfalso].
    apply (Qclt_not_le _ _ Htol), Qclt_le_weak. now apply (ratio_far B).
  - intros ->. now vm_compute.
Qed.

Lemma eval_ratio (M : Z) (e : expression) (r : Qc) :
  Forall (ratio_within M) (leaves e) → eval e = Some r →
  ratio_within (ratio_bound M e) r.
Proof.
  revert r. induction e as [x|o l IHl r' IHr]; intros r Hl; cbn.
  - intros [= <-]. cbn in Hl. now inversion Hl.
  - apply Forall_app in Hl as [Hl Hr].
    destruct (eval l) as [x|]; [|discriminate].
    destruct (eval r') as [y|]; [|discriminate]. cbn.
    now apply exact_apply_ratio; [apply IHl|apply IHr].
Qed.

Lemma shape_leaves s a b c d op1 op2 op3 :
  leaves (shape s a b c d op1 op2 op3) = [a; b; c; d].
Proof. destruct s; reflexivity. Qed.

Lemma shape_ratio_bound M s a b c d op1 op2 op3 :
  ratio_bound M (shape s a b c d op1 op2 op3) = (8 * M ^ 4)%Z.
Proof. destruct s; cbn [shape ratio_bound]; ring. Qed.

Lemma is_rank_ratio (x : Qc) : is_rank x → ratio_within 13 x.
Proof. intros (n & Hn & ->). apply ratio_within_of_int; lia. Qed.

Lemma tolerance_13 :
  (Fraction.float_1e_9 * Fraction.of_int (8 * 13 ^ 4) < 1)%Qc.
Proof. now vm_compute. Qed.

(** The value of a candidate on card ranks is a ratio of integers of
    absolute value at most 8 * 13^4 = 228488. *)
Lemma rank_value_ratio (a b c d : Qc) (op1 op2 op3 : op) (s : structure)
    (r : Qc) :
  Forall is_rank [a; b; c; d] →
  eval (shape s a b c d op1 op2 op3) = Some r →
  ratio_within (8 * 13 ^ 4) r.
Proof.
  intros Hrank Hr.
  rewrite <- (shape_ratio_bound 13 s a b c d op1 op2 op3).
  apply eval_ratio; [|assumption].
  rewrite shape_leaves. eapply Forall_impl; [exact Hrank|].
  apply is_rank_ratio.
Qed.

Lemma candidate_expression_inv (k : candidate) (e : expression) :
  candidate_expression k = Some e →
  ∃ a b c d op1 op2 op3,
    ordering k = [a; b; c; d] ∧ operators k = (op1, op2, op3) ∧
    e = shape (nesting k) a b c d op1 op2 op3.
Proof.
  unfold candidate_expression.
  destruct (ordering k) as [|a [|b [|c [|d [|? ?]]]]]; try discriminate.
  destruct (operators k) as [[op1 op2] op3]. intros [= <-].
  exists a, b, c, d, op1, op2, op3. auto.
Qed.

(** On card ranks the tolerance test accepts the value 24 only. *)
Lemma rank_value_exact (k : candidate) (e : expression) (r : Qc) :
  Forall is_rank (ordering k) →
  candidate_expression k = Some e → eval e = Some r →
  within_tolerance r ↔ is_24 r.
Proof.
  intros Hrank He Hr.
  apply candidate_expression_inv in He
    as (a & b & c & d & op1 & op2 & op3 & Hp & _ & ->).
  rewrite Hp in Hrank.
  apply (tolerance_exact (8 * 13 ^ 4)); [|exact tolerance_13].
  now apply (rank_value_ratio a b c d op1 op2 op3 (nesting k)).
Qed.

(** On card ranks the two acceptance tests select the same solutions. *)
Lemma rank_solution_exact (k : candidate) (x : string) :
  Forall is_rank (ordering k) →
  solution_of within_tolerance k x ↔ solution_of is_24 k x.
Proof.
  intros Hrank. unfold solution_of.
  split; intros (e & r & He & Hr & Hacc & Hx); exists e, r;
    (repeat split; try assumption);
    now apply (rank_value_exact k e r Hrank He Hr).
Qed.

(** ** The reference set *)

Lemma reference_list_spec (P : Qc → Prop) (accept : Qc → bool)
    (nums : list Qc) (keep_order : bool) (x : string) :
  (∀ r, accept r = true ↔ P r) →
  reference P nums keep_order x ↔ x ∈ reference_list accept nums keep_order.
Proof.
  intros Hacc. unfold reference, reference_list, solution_of, solution_string.
  rewrite list_elem_of_omap. split.
  - intros (k & Hk & e & r & He & Hr & HP & Hx). exists k.
    split; [assumption|]. rewrite He; cbn. rewrite Hr; cbn.
    apply Hacc in HP. rewrite HP. now f_equal.
  - intros (k & Hk & Hs). exists k. split; [assumption|].
    destruct (candidate_expression k) as [e|] eqn:He; [|discriminate].
    cbn in Hs. destruct (eval e) as [r|] eqn:Hr; [|discriminate].
    cbn in Hs. destruct (accept r) eqn:Ha; [|discriminate].
    injection Hs as <-. exists e, r.
    split; [reflexivity|]. split; [assumption|].
    split; [now apply Hacc|reflexivity].
Qed.

Lemma is_24_decide (r : Qc) :
  bool_decide (r = Fraction.of_int 24) = true ↔ is_24 r.
Proof. apply bool_decide_eq_true. Qed.

Lemma spec_orderings_rank (keep_order : bool) (nums p : list Qc) :
  Forall is_rank nums → p ∈ spec_orderings keep_order nums →
  Forall is_rank p.
Proof.
  intros Hr. unfold spec_orderings. destruct keep_order.
  - rewrite list_elem_of_singleton. now intros ->.
  - rewrite permutations_Permutation. intros Hp. now rewrite <- Hp.
Qed.

(** On card ranks the reference set of the tolerance test is the reference
    set of the exact test. *)
Lemma reference_rank_exact (nums : list Qc) (keep_order : bool) (x : string) :
  Forall is_rank nums →
  reference within_tolerance nums keep_order x ↔
  reference is_24 nums keep_order x.
Proof.
  intros Hr. unfold reference.
  split; intros (k & Hk & Hsol); exists k; (split; [assumption|]);
    apply rank_solution_exact; try assumption;
    apply (spec_orderings_rank keep_order nums); try assumption;
    now apply elem_of_spec_candidates.
Qed.

Lemma spec_candidates_length (a b c d : Qc) (keep_order : bool) :
  length (spec_candidates [a; b; c; d] keep_order) =
  ((if keep_order then 1 else 24) * 64 * 5)%nat.
Proof. destruct keep_order; reflexivity. Qed.

(** The result of the search on four operands. *)
Lemma find_all_solutions_from_numbers_spec (a b c d : Qc) (keep_order : bool) :
  ∃ fr, search_frame [a; b; c; d] keep_order = Ok fr ∧
        numbers fr = [a; b; c; d] ∧
        find_all_solutions_from_numbers [a; b; c; d] keep_order =
          Ok (sorted (elements (solutions fr))) ∧
        ∀ x, x ∈ sorted (elements (solutions fr)) ↔
             printable_all [a; b; c; d] ∧
             reference within_tolerance [a; b; c; d] keep_order x.
Proof.
  destruct (search_frame_spec a b c d keep_order) as (fr & Hrun & Hn & Hs).
  exists fr. split; [assumption|]. split; [assumption|].
  split; [now apply find_all_solutions_from_numbers_frame|].
  intros x. now rewrite elem_of_sorted_elements.
Qed.

(** Card ranks are printable. *)
Lemma ranks_printable :
  Forall (λ n, Fraction.printable (Fraction.of_int n) = true) (seqZ 1 13).
Proof. refine (bool_decide_unpack _ _). now vm_compute. Qed.

Lemma is_rank_printable (x : Qc) : is_rank x → Fraction.printable x = true.
Proof.
  intros (n & Hn & ->).
  apply (proj1 (Forall_forall _ _) ranks_printable), elem_of_seqZ. lia.
Qed.

Lemma is_rank_printable_all (p : list Qc) :
  Forall is_rank p → printable_all p.
Proof.
  intros H. apply printable_all_Forall.
  eapply Forall_impl; [exact H|]. apply is_rank_printable.
Qed.

(** On card ranks the search returns the reference set of the exact test. *)
Lemma rank_search_exact (nums : list Qc) (keep_order : bool) (x : string) :
  Forall is_rank nums →
  printable_all nums ∧ reference within_tolerance nums keep_order x ↔
  reference is_24 nums keep_order x.
Proof.
  intros Hrank. rewrite reference_rank_exact by assumption.
  pose proof (is_rank_printable_all _ Hrank). tauto.
Qed.

(** * The search: soundness and completeness *)

(** C1, as stated, fails: on the integers 240000000001, 10000000000, 0, 0
    in the given order the search returns the string of a candidate of value
    24.0000000001, which is not in the reference set of the candidates of
    value 24. *)
Lemma C1_counterexample :
  let nums := Fraction.of_int <$> [240000000001; 10000000000; 0; 0]%Z in
  ∃ l x, find_all_solutions_from_numbers nums true = Ok l ∧
         x ∈ l ∧ ¬ reference is_24 nums true x.
Proof.
  intros nums.
  exists (sorted (elements (list_to_set (C := gset string)
            (reference_list near_24 nums true)))),
         "((240000000001 / 10000000000) + 0) + 0".
  split; [now vm_compute|]. split.
  - refine (bool_decide_unpack _ _). now vm_compute.
  - rewrite (reference_list_spec is_24 _ _ _ _ is_24_decide).
    refine (bool_decide_unpack _ _). now vm_compute.
Qed.

(** C1, amended: for any four rational operands and preserve-order flag the
    search returns the sorted, duplicate-free list of the formatted strings
    of the candidates (the given ordering or the 24 permutations, the 64
    operator triples, the 5 structures) whose evaluation, by the nesting of
    the structure and without a division by zero, gives a value [r] with
    [|r - 24| < float(1e-9)], provided the numerators and denominators of
    the four operands have at most 4300 digits; with an operand beyond this
    limit the formatting of every candidate raises [ValueError], which is
    caught, and the list is empty.  When the operands are integers from 1
    to 13 the list is exactly that of the candidates of value 24. *)
Theorem C1_search_returns_the_reference_set (a b c d : Qc)
    (keep_order : bool) :
  length (spec_candidates [a; b; c; d] keep_order) =
    ((if keep_order then 1 else 24) * 64 * 5)%nat ∧
  ∃ l, find_all_solutions_from_numbers [a; b; c; d] keep_order = Ok l ∧
       Sorted String.le l ∧ NoDup l ∧
       (∀ x, x ∈ l ↔
             printable_all [a; b; c; d] ∧
             reference within_tolerance [a; b; c; d] keep_order x) ∧
       (¬ printable_all [a; b; c; d] → l = []) ∧
       (Forall is_rank [a; b; c; d] →
        ∀ x, x ∈ l ↔ reference is_24 [a; b; c; d] keep_order x).
Proof.
  split; [apply spec_candidates_length|].
  destruct (find_all_solutions_from_numbers_spec a b c d keep_order)
    as (fr & _ & _ & Hres & Hmem).
  exists (sorted (elements (solutions fr))).
  split; [assumption|]. split; [apply sorted_Sorted|].
  split; [apply NoDup_sorted_elements|]. split; [assumption|]. split.
  - intros Hno. destruct (sorted (elements (solutions fr))) as [|x l] eqn:Hl;
      [reflexivity|].
    destruct Hno. apply (Hmem x). left.
  - intros Hrank x. rewrite Hmem. now apply rank_search_exact.
Qed.

Lemma rank_of_int (n : Z) : (1 ≤ n ≤ 13)%Z → is_rank (Fraction.of_int n).
Proof. intros Hn. now exists n. Qed.

Lemma C1_witness :
  ∃ l, find_all_solutions_from_numbers
         (Fraction.of_int <$> [6; 6; 2; 2]%Z) false = Ok l ∧
       ∀ x, x ∈ l ↔
            reference is_24 (Fraction.of_int <$> [6; 6; 2; 2]%Z) false x.
Proof.
  destruct (C1_search_returns_the_reference_set
              (Fraction.of_int 6) (Fraction.of_int 6)
              (Fraction.of_int 2) (Fraction.of_int 2) false)
    as (_ & l & Hl & _ & _ & _ & _ & Hexact).
  exists l. split; [exact Hl|]. apply Hexact.
  repeat constructor; apply rank_of_int; lia.
Defined.

(** C2, as stated, fails: on the integers 1, 10000000000, 24, 1 the search
    in the given order returns ((1 / 10000000000) + 24) * 1, and no
    candidate printed as this string has the value 24 (the value is
    24.0000000001, accepted by the tolerance comparison). *)
Lemma C2_counterexample :
  let nums := Fraction.of_int <$> [1; 10000000000; 24; 1]%Z in
  ∃ l x, find_all_solutions_from_numbers nums true = Ok l ∧ x ∈ l ∧
         ∀ k e, k ∈ spec_candidates nums true →
                candidate_expression k = Some e → show e = x →
                eval e ≠ Some (Fraction.of_int 24).
Proof.
  intros nums.
  exists (sorted (elements (list_to_set (C := gset string)
            (reference_list near_24 nums true)))),
         "((1 / 10000000000) + 24) * 1".
  split; [now vm_compute|]. split.
  - refine (bool_decide_unpack _ _). now vm_compute.
  - intros k e Hk He Hx Hr.
    assert (reference is_24 nums true "((1 / 10000000000) + 24) * 1")
      as Href.
    { exists k. split; [assumption|]. exists e, (Fraction.of_int 24).
      repeat split; assumption. }
    revert Href. rewrite (reference_list_spec is_24 _ _ _ _ is_24_decide).
    refine (bool_decide_unpack _ _). now vm_compute.
Qed.

(** C2, amended: for every quadruple of rational operands and either mode,
    every string returned by the search is the formatted string of a
    candidate whose value [r], under the nesting of its structure, passes
    the comparison [|r - 24| < float(1e-9)] the code makes; when the
    operands are integers from 1 to 13, [r] is exactly 24. *)
Theorem C2_returned_strings_evaluate_to_24 (a b c d : Qc)
    (keep_order : bool) (l : list string) (x : string) :
  find_all_solutions_from_numbers [a; b; c; d] keep_order = Ok l →
  x ∈ l →
  ∃ k e r, k ∈ spec_candidates [a; b; c; d] keep_order ∧
           candidate_expression k = Some e ∧ show e = x ∧
           eval e = Some r ∧ within_tolerance r ∧
           (Forall is_rank [a; b; c; d] → r = Fraction.of_int 24).
Proof.
  intros Hl Hx.
  destruct (find_all_solutions_from_numbers_spec a b c d keep_order)
    as (fr & _ & _ & Hres & Hmem).
  rewrite Hres in Hl. injection Hl as <-.
  apply Hmem in Hx as (_ & k & Hk & e & r & He & Hr & Htol & Hshow).
  exists k, e, r. repeat split; try assumption.
  intros Hrank. apply (rank_value_exact k e r); try assumption.
  apply (spec_orderings_rank keep_order [a; b; c; d]); [assumption|].
  now apply elem_of_spec_candidates.
Qed.

Lemma C2_witness :
  ∃ k e, k ∈ spec_candidates (Fraction.of_int <$> [6; 6; 2; 2]%Z) true ∧
         candidate_expression k = Some e ∧
         show e = "6 * ((6 + 2) / 2)" ∧
         eval e = Some (Fraction.of_int 24).
Proof.
  destruct (C2_returned_strings_evaluate_to_24
              (Fraction.of_int 6) (Fraction.of_int 6)
              (Fraction.of_int 2) (Fraction.of_int 2) true
              ["(6 * (6 + 2)) / 2"; "6 * ((6 + 2) / 2)"]
              "6 * ((6 + 2) / 2)")
    as (k & e & r & Hk & He & Hs & Hr & _ & H24).
  - now vm_compute.
  - refine (bool_decide_unpack _ _). now vm_compute.
  - exists k, e. rewrite <- H24; [auto|].
    repeat constructor; apply rank_of_int; lia.
Defined.

(** * No exception, sorted and duplicate-free output *)



(** C4: the list returned by the search is sorted in the lexicographic
    order of the strings and has no duplicates, and it is determined by the
    operands and the flag alone: in whatever order the elements of the
    accumulated set are handed to [sorted], the same list comes out. *)
Theorem C4_result_sorted_unique_deterministic (a b c d : Qc)
    (keep_order : bool) :
  ∃ l, find_all_solutions_from_numbers [a; b; c; d] keep_order = Ok l ∧
       Sorted String.le l ∧ NoDup l ∧
       ∀ fr order,
         search_frame [a; b; c; d] keep_order = Ok fr →
         order ≡ₚ elements (solutions fr) → sorted order = l.
Proof.
  destruct (find_all_solutions_from_numbers_spec a b c d keep_order)
    as (fr & Hrun & _ & Hres & _).
  exists (sorted (elements (solutions fr))).
  split; [assumption|]. split; [apply sorted_Sorted|].
  split; [apply NoDup_sorted_elements|].
  intros fr' order Hrun' Horder. rewrite Hrun in Hrun'.
  injection Hrun' as <-. now apply sorted_order_independent.
Qed.

Lemma C4_witness :
  ∃ l, find_all_solutions_from_numbers
         (Fraction.of_int <$> [6; 6; 2; 2]%Z) true = Ok l ∧
       sorted ["6 * ((6 + 2) / 2)"; "(6 * (6 + 2)) / 2"] = l.
Proof.
  destruct (C4_result_sorted_unique_deterministic
              (Fraction.of_int 6) (Fraction.of_int 6)
              (Fraction.of_int 2) (Fraction.of_int 2) true)
    as (l & Hl & _ & _ & Hdet).
  exists l. split; [exact Hl|].
  apply (Hdet (Frame (Fraction.of_int <$> [6; 6; 2; 2]%Z)
                 (list_to_set ["6 * ((6 + 2) / 2)"; "(6 * (6 + 2)) / 2"]))).
  - now vm_compute.
  - cbn [solutions]. symmetry. apply elements_list_to_set.
    refine (bool_decide_unpack _ _). now vm_compute.
Defined.

(** * The two modes *)

(** C5: for every operand quadruple, the search over all the orderings
    returns every string the search in the given order returns, hence at
    least as many. *)
Theorem C5_all_orderings_find_no_less (a b c d : Qc) :
  ∃ l_all l_kept,
    find_all_solutions_from_numbers [a; b; c; d] false = Ok l_all ∧
    find_all_solutions_from_numbers [a; b; c; d] true = Ok l_kept ∧
    (∀ x, x ∈ l_kept → x ∈ l_all) ∧
    length l_kept ≤ length l_all.
Proof.
  destruct (find_all_solutions_from_numbers_spec a b c d false)
    as (fr_all & _ & _ & Hall & Hmem_all).
  destruct (find_all_solutions_from_numbers_spec a b c d true)
    as (fr_kept & _ & _ & Hkept & Hmem_kept).
  exists (sorted (elements (solutions fr_all))),
         (sorted (elements (solutions fr_kept))).
  split; [assumption|]. split; [assumption|].
  assert (∀ x, x ∈ solutions fr_kept → x ∈ solutions fr_all) as Hsub.
  { intros x. rewrite <- !elem_of_sorted_elements, Hmem_all, Hmem_kept.
    rewrite !reference_hit. intros (p & Hp & Hhit).
    exists p. split; [|assumption].
    cbn in Hp. apply list_elem_of_singleton in Hp as ->.
    now apply permutations_Permutation. }
  split.
  - intros x. rewrite !elem_of_sorted_elements. apply Hsub.
  - rewrite !length_sorted_elements. now apply subseteq_size.
Qed.

(** C6: for every hand of four cards, [has_solution] answers whether the
    search on the values of the cards, in the order of the hand, returns a
    non-empty list. *)
Theorem C6_has_solution_preserves_order (c1 c2 c3 c4 : Card) :
  ∃ l, find_all_solutions_from_numbers
         [Fraction.of_int (value c1); Fraction.of_int (value c2);
          Fraction.of_int (value c3); Fraction.of_int (value c4)] true
       = Ok l ∧
       has_solution [c1; c2; c3; c4] = Ok (bool_decide (l ≠ [])).
Proof.
  destruct (find_all_solutions_from_numbers_spec
              (Fraction.of_int (value c1)) (Fraction.of_int (value c2))
              (Fraction.of_int (value c3)) (Fraction.of_int (value c4)) true)
    as (fr & _ & _ & Hres & _).
  exists (sorted (elements (solutions fr))). split; [assumption|].
  unfold has_solution, find_all_solutions. cbn [fmap list_fmap].
  rewrite Hres. cbn [mbind result_bind mret result_ret].
  f_equal. now destruct (sorted (elements (solutions fr))).
Qed.

(** * The concrete scenarios *)

(** C7: on the operands 6, 6, 2, 2 the search over all the orderings
    returns a non-empty list that contains (6 * 2) + (6 * 2). *)
Theorem C7_scenario_6_6_2_2 :
  ∃ l, find_all_solutions_from_numbers
         (Fraction.of_int <$> [6; 6; 2; 2]%Z) false = Ok l ∧
       l ≠ [] ∧ "(6 * 2) + (6 * 2)" ∈ l.
Proof.
  eexists. split; [now vm_compute|]. split; [discriminate|].
  refine (bool_decide_unpack _ _). now vm_compute.
Qed.

(** C8: on the operands 1, 1, 1, 1 the search over all the orderings
    returns the empty list, and [has_solution] is false on a hand of four
    aces. *)
Theorem C8_scenario_four_aces :
  find_all_solutions_from_numbers
    (Fraction.of_int <$> [1; 1; 1; 1]%Z) false = Ok [] ∧
  (c1 ← Card_init "♠" "A"; c2 ← Card_init "♥" "A";
   c3 ← Card_init "♣" "A"; c4 ← Card_init "♦" "A";
   has_solution [c1; c2; c3; c4]) = Ok false.
Proof. split; now vm_compute. Qed.

(** * The operands are read only *)

(** C9: the search on four operands ends with the caller's list of
    operands as it was; trying a candidate leaves this list alone and only
    adds to the set of solutions, and two candidates tried in either order
    leave the same frame: no candidate sees a change made by another. *)
Theorem C9_search_leaves_operands_unchanged (a b c d : Qc)
    (keep_order : bool)
    (a1 b1 c1 d1 a2 b2 c2 d2 : Qc) (o1 o2 o3 p1 p2 p3 : op)
    (s1 s2 : structure) (fr : frame) :
  (∃ fr', search_frame [a; b; c; d] keep_order = Ok fr' ∧
          numbers fr' = [a; b; c; d]) ∧
  numbers (structure_body a1 b1 c1 d1 o1 o2 o3 fr s1) = numbers fr ∧
  solutions fr ⊆ solutions (structure_body a1 b1 c1 d1 o1 o2 o3 fr s1) ∧
  structure_body a2 b2 c2 d2 p1 p2 p3
    (structure_body a1 b1 c1 d1 o1 o2 o3 fr s1) s2 =
  structure_body a1 b1 c1 d1 o1 o2 o3
    (structure_body a2 b2 c2 d2 p1 p2 p3 fr s2) s1.
Proof.
  split; [|split; [|split]].
  - destruct (search_frame_spec a b c d keep_order) as (fr' & Hrun & Hn & _).
    eauto.
  - apply structure_body_numbers.
  - intros x Hx. apply structure_body_solutions. now left.
  - unfold structure_body.
    destruct (evaluate_expression a1 b1 c1 d1 o1 o2 o3 s1) as [[] x1];
      destruct (evaluate_expression a2 b2 c2 d2 p1 p2 p3 s2) as [[] x2];
      try reflexivity.
    unfold add_solution; cbn [numbers solutions]. f_equal.
    apply set_eq. intros x. rewrite !elem_of_union. tauto.
Qed.

(** * The tolerance on card ranks *)

Lemma float_1e_9_is_binary64 :
  (2 ^ 52 ≤ Fraction.float_1e_9_mantissa < 2 ^ 53)%Z ∧
  (2 * Z.abs (Fraction.float_1e_9_mantissa * 10 ^ 9 - 2 ^ 82) ≤ 10 ^ 9)%Z ∧
  Fraction.float_1e_9 =
    (Fraction.of_int Fraction.float_1e_9_mantissa
     / Fraction.of_int (2 ^ 82))%Qc.
Proof. repeat split; now vm_compute. Qed.

Lemma decimal_13 : (decimal_1e_9 * Fraction.of_int (8 * 13 ^ 4) < 1)%Qc.
Proof. now vm_compute. Qed.

(** C10: for operands that are integers from 1 to 13, taken in any order,
    with any three operators and any of the five structures, a value the
    evaluator computes passes the test [abs(result - 24) < 1e-9] exactly
    when it is 24; any other value is farther from 24 than 0.000000001 and
    than the binary64 number the literal [1e-9] denotes. *)
Theorem C10_tolerance_is_exact_on_ranks (a b c d a' b' c' d' : Qc)
    (op1 op2 op3 : op) (s : structure) (r : Qc) :
  Forall is_rank [a; b; c; d] →
  [a; b; c; d] ≡ₚ [a'; b'; c'; d'] →
  structure_value s a' b' c' d' op1 op2 op3 = Ok r →
  (near_24 r = true ↔ r = Fraction.of_int 24) ∧
  (r = Fraction.of_int 24 ∨
   (decimal_1e_9 < Qcabs (r - Fraction.of_int 24))%Qc ∧
   (Fraction.float_1e_9 < Qcabs (r - Fraction.of_int 24))%Qc).
Proof.
  intros Hrank Hperm Hval. rewrite Hperm in Hrank.
  rewrite structure_value_eval in Hval.
  destruct (eval (shape s a' b' c' d' op1 op2 op3)) as [r'|] eqn:Hr;
    [|discriminate].
  injection Hval as ->.
  pose proof (rank_value_ratio a' b' c' d' op1 op2 op3 s r Hrank Hr) as Hq.
  split.
  - rewrite near_24_spec.
    apply (tolerance_exact (8 * 13 ^ 4)); [assumption|exact tolerance_13].
  - destruct (decide (r = Fraction.of_int 24)) as [|Hne]; [now left|right].
    split; apply (ratio_far (8 * 13 ^ 4)); try assumption.
    + exact decimal_13.
    + exact tolerance_13.
Qed.

Lemma C10_witness :
  near_24 (Fraction.of_int 8 / (Fraction.of_int 3
           - Fraction.of_int 8 / Fraction.of_int 3))%Qc = true
  ↔ (Fraction.of_int 8 / (Fraction.of_int 3
     - Fraction.of_int 8 / Fraction.of_int 3))%Qc = Fraction.of_int 24.
Proof.
  refine (proj1 (C10_tolerance_is_exact_on_ranks
            (Fraction.of_int 3) (Fraction.of_int 3)
            (Fraction.of_int 8) (Fraction.of_int 8)
            (Fraction.of_int 8) (Fraction.of_int 3)
            (Fraction.of_int 8) (Fraction.of_int 3)
            Div Sub Div RightRight _ _ _ _)).
  - repeat constructor; apply rank_of_int; lia.
  - refine (bool_decide_unpack _ _). now vm_compute.
  - now vm_compute.
Defined.

(** * Further properties of the search *)

Lemma unpack4_raise (p : list Qc) :
  length p ≠ 4 → unpack4 p = Raise ValueError.
Proof.
  destruct p as [|a [|b [|c [|d [|e p]]]]]; try reflexivity.
  intros H. now contradict H.
Qed.

Lemma for_each_perm_raise (fr : frame) (p : list Qc)
    (rest : list (list Qc)) :
  length p ≠ 4 → for_each_perm fr (p :: rest) = Raise ValueError.
Proof.
  intros Hp. cbn [for_each_perm]. unfold perm_body.
  now rewrite (unpack4_raise p Hp).
Qed.

(** X1: with a number of operands other than four the search raises
    [ValueError] at the first unpacking, in both modes, and so does
    [has_solution] on a hand of other than four cards. *)
Theorem X1_wrong_operand_count_raises (nums : list Qc) (keep_order : bool)
    (cards : list Card) :
  (length nums ≠ 4 →
   find_all_solutions_from_numbers nums keep_order = Raise ValueError) ∧
  (length cards ≠ 4 → has_solution cards = Raise ValueError).
Proof.
  assert (∀ l k, length l ≠ 4 →
                 find_all_solutions_from_numbers l k = Raise ValueError)
    as Hraise.
  { intros l k Hl. unfold find_all_solutions_from_numbers, search_frame.
    destruct k; cbn [orderings numbers].
    - now rewrite for_each_perm_raise.
    - destruct (itertools_permutations l) as [|p rest] eqn:Hperms.
      + assert (l ∈ itertools_permutations l) as Hin
          by now apply itertools_permutations_spec.
        rewrite Hperms in Hin. inversion Hin.
      + rewrite for_each_perm_raise; [reflexivity|].
        assert (p ∈ itertools_permutations l) as Hin
          by (rewrite Hperms; left).
        apply itertools_permutations_spec, Permutation_length in Hin.
        congruence. }
  split; [apply Hraise|].
  intros Hc. unfold has_solution, find_all_solutions.
  rewrite Hraise; [reflexivity|]. now rewrite length_fmap.
Qed.

Lemma X1_witness :
  find_all_solutions_from_numbers (Fraction.of_int <$> [6; 6; 2]%Z) false
  = Raise ValueError.
Proof.
  refine (proj1 (X1_wrong_operand_count_raises
                   (Fraction.of_int <$> [6; 6; 2]%Z) false []) _).
  cbn. lia.
Defined.

(** X2: the search over all the orderings does not depend on the order in
    which the four operands are given. *)
Theorem X2_all_orderings_permutation_invariant (a b c d a' b' c' d' : Qc) :
  [a; b; c; d] ≡ₚ [a'; b'; c'; d'] →
  find_all_solutions_from_numbers [a; b; c; d] false =
  find_all_solutions_from_numbers [a'; b'; c'; d'] false.
Proof.
  intros Hperm.
  destruct (find_all_solutions_from_numbers_spec a b c d false)
    as (fr1 & _ & _ & -> & Hmem1).
  destruct (find_all_solutions_from_numbers_spec a' b' c' d' false)
    as (fr2 & _ & _ & -> & Hmem2).
  f_equal. apply sorted_order_independent.
  apply NoDup_Permutation; try apply NoDup_elements.
  intros x. rewrite !elem_of_elements.
  rewrite <- (elem_of_sorted_elements (solutions fr1)),
    <- (elem_of_sorted_elements (solutions fr2)).
  rewrite Hmem1, Hmem2, !reference_hit.
  split; intros (p & Hp & Hhit); exists p; (split; [|assumption]);
    cbn [spec_orderings] in *; apply permutations_Permutation;
    apply permutations_Permutation in Hp.
  - now rewrite <- Hperm.
  - now rewrite Hperm.
Qed.

Lemma X2_witness :
  find_all_solutions_from_numbers
    (Fraction.of_int <$> [4; 1; 8; 7]%Z) false =
  find_all_solutions_from_numbers
    (Fraction.of_int <$> [8; 4; 7; 1]%Z) false.
Proof.
  apply (X2_all_orderings_permutation_invariant
           (Fraction.of_int 4) (Fraction.of_int 1)
           (Fraction.of_int 8) (Fraction.of_int 7)
           (Fraction.of_int 8) (Fraction.of_int 4)
           (Fraction.of_int 7) (Fraction.of_int 1)).
  refine (bool_decide_unpack _ _). now vm_compute.
Defined.

Lemma reference_list_length (accept : Qc → bool) (nums : list Qc)
    (keep_order : bool) :
  length (reference_list accept nums keep_order)
  ≤ length (spec_candidates nums keep_order).
Proof.
  unfold reference_list.
  induction (spec_candidates nums keep_order) as [|k l IH]; cbn; [lia|].
  destruct (solution_string accept k); cbn; lia.
Qed.

Lemma NoDup_incl_length {A : Type} (l k : list A) :
  NoDup l → (∀ x, x ∈ l → x ∈ k) → length l ≤ length k.
Proof.
  intros Hl Hsub. apply submseteq_length, NoDup_submseteq; assumption.
Qed.

(** X3: the search returns at most one string per candidate: at most 320
    strings in the given order, at most 7680 over all the orderings. *)
Theorem X3_result_size_bound (a b c d : Qc) (keep_order : bool) :
  ∃ l, find_all_solutions_from_numbers [a; b; c; d] keep_order = Ok l ∧
       length l ≤ if keep_order then 320 else 24 * 320.
Proof.
  destruct (find_all_solutions_from_numbers_spec a b c d keep_order)
    as (fr & _ & _ & Hres & Hmem).
  exists (sorted (elements (solutions fr))). split; [assumption|].
  transitivity (length (reference_list near_24 [a; b; c; d] keep_order)).
  - apply NoDup_incl_length; [apply NoDup_sorted_elements|].
    intros x Hx. apply Hmem in Hx.
    now apply (reference_list_spec within_tolerance near_24 _ _ _
                 near_24_spec).
  - rewrite reference_list_length, spec_candidates_length.
    destruct keep_order; reflexivity.
Qed.

Lemma small_integer_ratio (x : Qc) : is_small_integer x → ratio_within 105 x.
Proof. intros (n & Hn & ->). apply ratio_within_of_int; lia. Qed.

Lemma tolerance_105 :
  (Fraction.float_1e_9 * Fraction.of_int (8 * 105 ^ 4) < 1)%Qc.
Proof. now vm_compute. Qed.

Lemma small_integer_solution_exact (k : candidate) (x : string) :
  Forall is_small_integer (ordering k) →
  solution_of within_tolerance k x ↔ solution_of is_24 k x.
Proof.
  intros Hsmall.
  assert (∀ e r, candidate_expression k = Some e → eval e = Some r →
                 within_tolerance r ↔ is_24 r) as Hiff.
  { intros e r He Hr.
    apply candidate_expression_inv in He
      as (a & b & c & d & op1 & op2 & op3 & Hp & _ & ->).
    rewrite Hp in Hsmall.
    apply (tolerance_exact (8 * 105 ^ 4)); [|exact tolerance_105].
    rewrite <- (shape_ratio_bound 105 (nesting k) a b c d op1 op2 op3).
    apply eval_ratio; [|assumption].
    rewrite shape_leaves. eapply Forall_impl; [exact Hsmall|].
    apply small_integer_ratio. }
  unfold solution_of.
  split; intros (e & r & He & Hr & Hacc & Hx); exists e, r;
    (repeat split; try assumption); now apply (Hiff e r He Hr).
Qed.

Lemma small_integers_printable :
  Forall (λ n, Fraction.printable (Fraction.of_int n) = true)
    (seqZ (-105) 211).
Proof. refine (bool_decide_unpack _ _). now vm_compute. Qed.

Lemma small_integers_printable_all (p : list Qc) :
  Forall is_small_integer p → printable_all p.
Proof.
  intros H. apply printable_all_Forall.
  eapply Forall_impl; [exact H|]. intros x (n & Hn & ->).
  apply (proj1 (Forall_forall _ _) small_integers_printable), elem_of_seqZ.
  lia.
Qed.

(** X4: the tolerance comparison is exact well beyond the card ranks: for
    four integer operands of absolute value at most 105 (zero and negative
    numbers included) the search returns exactly the strings of the
    candidates of value 24. *)
Theorem X4_exact_on_integers_up_to_105 (a b c d : Qc) (keep_order : bool) :
  Forall is_small_integer [a; b; c; d] →
  ∃ l, find_all_solutions_from_numbers [a; b; c; d] keep_order = Ok l ∧
       ∀ x, x ∈ l ↔ reference is_24 [a; b; c; d] keep_order x.
Proof.
  intros Hsmall.
  destruct (find_all_solutions_from_numbers_spec a b c d keep_order)
    as (fr & _ & _ & Hres & Hmem).
  exists (sorted (elements (solutions fr))). split; [assumption|].
  intros x. rewrite Hmem.
  pose proof (small_integers_printable_all _ Hsmall) as Hprint.
  transitivity (reference within_tolerance [a; b; c; d] keep_order x);
    [tauto|].
  unfold reference.
  split; intros (k & Hk & Hsol); exists k; (split; [assumption|]);
    apply small_integer_solution_exact; try assumption;
    apply elem_of_spec_candidates in Hk;
    (destruct keep_order; cbn [spec_orderings] in Hk;
     [apply list_elem_of_singleton in Hk as ->; assumption
     |apply permutations_Permutation in Hk; now rewrite <- Hk]).
Qed.

Lemma X4_witness :
  ∃ l, find_all_solutions_from_numbers
         (Fraction.of_int <$> [-100; 0; 105; 19]%Z) false = Ok l ∧
       ∀ x, x ∈ l ↔
            reference is_24 (Fraction.of_int <$> [-100; 0; 105; 19]%Z)
              false x.
Proof.
  apply (X4_exact_on_integers_up_to_105
           (Fraction.of_int (-100)) (Fraction.of_int 0)
           (Fraction.of_int 105) (Fraction.of_int 19) false).
  repeat constructor; eexists; (split; [|reflexivity]); lia.
Defined.

Lemma string_app_not_empty (s : string) (ch : Ascii.ascii) (t : string) :
  s +:+ String ch t ≠ "".
Proof.
  destruct s as [|ch' s]; [rewrite string_app_nil|rewrite string_app_cons];
    discriminate.
Qed.

Lemma show_bin_not_empty (o : op) (l r : expression) : show (Bin o l r) ≠ "".
Proof. cbn [show]. apply string_app_not_empty. Qed.

(** X5: the empty string that [evaluate_expression] returns for a discarded
    candidate never reaches the result: every string the search returns is
    non-empty. *)
Theorem X5_no_empty_solution (a b c d : Qc) (keep_order : bool)
    (l : list string) (x : string) :
  find_all_solutions_from_numbers [a; b; c; d] keep_order = Ok l →
  x ∈ l → x ≠ "".
Proof.
  intros Hl Hx.
  destruct (find_all_solutions_from_numbers_spec a b c d keep_order)
    as (fr & _ & _ & Hres & Hmem).
  rewrite Hres in Hl. injection Hl as <-.
  apply Hmem in Hx as (_ & k & _ & e & r & He & _ & _ & <-).
  apply candidate_expression_inv in He as (? & ? & ? & ? & ? & ? & ? & _ & _ & ->).
  destruct (nesting k); apply show_bin_not_empty.
Qed.

Lemma X5_witness : "(6 * 2) + (6 * 2)" ≠ "".
Proof.
  eapply (X5_no_empty_solution
            (Fraction.of_int 6) (Fraction.of_int 2)
            (Fraction.of_int 6) (Fraction.of_int 2) true).
  - vm_compute. reflexivity.
  - refine (bool_decide_unpack _ _). now vm_compute.
Defined.

(** X6: in each of the five branches of [evaluate_expression] the value
    computed and the string formatted describe the same expression tree,
    that of the structure named by the label.  The value is the bottom-up
    evaluation of the tree, and the line that computes it raises
    [ZeroDivisionError] and nothing else.  The line that formats the string
    raises [ValueError] when the numerator or the denominator of an operand
    has more than 4300 digits, and otherwise gives the tree printed with a
    pair of parentheses around each inner operation.  The answer is
    [(False, "")] when either line raises, and otherwise the result of the
    comparison with the printed tree. *)
Theorem X6_value_and_string_agree (s : structure) (a b c d : Qc)
    (op1 op2 op3 : op) :
  structure_value s a b c d op1 op2 op3 =
    match eval (shape s a b c d op1 op2 op3) with
    | Some r => Ok r
    | None => Raise ZeroDivisionError
    end ∧
  structure_expr s a b c d op1 op2 op3 =
    (if forallb Fraction.printable [a; b; c; d]
     then Ok (show (shape s a b c d op1 op2 op3))
     else Raise ValueError) ∧
  leaves (shape s a b c d op1 op2 op3) = [a; b; c; d] ∧
  evaluate_expression a b c d op1 op2 op3 s =
    match eval (shape s a b c d op1 op2 op3) with
    | Some r =>
        if forallb Fraction.printable [a; b; c; d]
        then (near_24 r, show (shape s a b c d op1 op2 op3))
        else (false, "")
    | None => (false, "")
    end.
Proof.
  split; [apply structure_value_eval|].
  split; [apply structure_expr_show|].
  split; [apply shape_leaves|apply evaluate_expression_spec].
Qed.

(** The integer 10^4300, of 4301 digits, is not printable. *)
Lemma printable_limit :
  Fraction.printable (Fraction.of_int (10 ^ 4300)) = false.
Proof. now vm_compute. Qed.

(** With the operand 10^4300 a candidate of value 24 is not reported, and
    the search returns the empty list. *)
Example beyond_the_limit :
  eval (shape LeftLeft (Fraction.of_int (10 ^ 4300)) (Fraction.of_int 0)
          (Fraction.of_int 24) (Fraction.of_int 0) Mul Add Add)
    = Some (Fraction.of_int 24) ∧
  evaluate_expression (Fraction.of_int (10 ^ 4300)) (Fraction.of_int 0)
    (Fraction.of_int 24) (Fraction.of_int 0) Mul Add Add LeftLeft
    = (false, "") ∧
  find_all_solutions_from_numbers
    [Fraction.of_int (10 ^ 4300); Fraction.of_int 0; Fraction.of_int 24;
     Fraction.of_int 0] true = Ok [].
Proof.
  assert (forallb Fraction.printable
            [Fraction.of_int (10 ^ 4300); Fraction.of_int 0;
             Fraction.of_int 24; Fraction.of_int 0] = false) as Hno.
  { cbn [forallb]. now rewrite printable_limit. }
  assert (eval (shape LeftLeft (Fraction.of_int (10 ^ 4300))
                  (Fraction.of_int 0) (Fraction.of_int 24)
                  (Fraction.of_int 0) Mul Add Add)
          = Some (Fraction.of_int 24)) as Heval by now vm_compute.
  split; [exact Heval|]. split.
  - now rewrite evaluate_expression_spec, Heval, Hno.
  - destruct (find_all_solutions_from_numbers_spec
                (Fraction.of_int (10 ^ 4300)) (Fraction.of_int 0)
                (Fraction.of_int 24) (Fraction.of_int 0) true)
      as (fr & _ & _ & -> & Hmem).
    f_equal. destruct (sorted (elements (solutions fr))) as [|x l];
      [reflexivity|].
    destruct (proj1 (Hmem x)) as [Hp _]; [left|].
    unfold printable_all in Hp. congruence.
Qed.

(** * The deck *)









Lemma standard_deck_facts :
  ∃ game, Game24_init = Ok game ∧
          length (deck game) = 52 ∧
          NoDup (deck game) ∧
          Forall card_is_rank (deck game).
Proof.
  eexists. split; [vm_compute; reflexivity|]. cbn [deck].
  split; [reflexivity|].
  split; [refine (bool_decide_unpack _ _); now vm_compute|].
  unfold card_is_rank. refine (bool_decide_unpack _ _). now vm_compute.
Qed.

(** X8: the deck of a new game has 52 cards, no two of them equal, each
    with a value from 1 to 13, and each value from 1 to 13 on exactly four
    cards. *)
Theorem X8_standard_deck :
  ∃ game, Game24_init = Ok game ∧
          length (deck game) = 52 ∧
          NoDup (deck game) ∧
          Forall card_is_rank (deck game) ∧
          Forall (λ v, length (filter (λ card, value card = v) (deck game))
                       = 4)
                 (seqZ 1 13).
Proof.
  eexists. split; [vm_compute; reflexivity|]. cbn [deck].
  split; [reflexivity|].
  split; [refine (bool_decide_unpack _ _); now vm_compute|].
  split; [unfold card_is_rank; refine (bool_decide_unpack _ _);
          now vm_compute|].
  refine (bool_decide_unpack _ _). now vm_compute.
Qed.

Lemma submseteq_NoDup {A : Type} (l k : list A) :
  l ⊆+ k → NoDup k → NoDup l.
Proof.
  intros Hsub Hk. apply submseteq_sublist_r in Hsub as (l' & Hperm & Hsl).
  rewrite Hperm. now apply (sublist_NoDup l' k).
Qed.

Lemma card_rank_operand (card : Card) :
  card_is_rank card → is_rank (Fraction.of_int (value card)).
Proof. intros H. now exists (value card). Qed.

(** The search on a hand of four cards with values from 1 to 13. *)
Lemma find_all_solutions_ranks (c1 c2 c3 c4 : Card) :
  Forall card_is_rank [c1; c2; c3; c4] →
  ∃ l, find_all_solutions [c1; c2; c3; c4] = Ok l ∧
       has_solution [c1; c2; c3; c4] = Ok (bool_decide (l ≠ [])) ∧
       ∀ x, x ∈ l ↔
            reference is_24
              ((λ card, Fraction.of_int (value card)) <$> [c1; c2; c3; c4])
              true x.
Proof.
  intros Hrank.
  destruct (find_all_solutions_from_numbers_spec
              (Fraction.of_int (value c1)) (Fraction.of_int (value c2))
              (Fraction.of_int (value c3)) (Fraction.of_int (value c4)) true)
    as (fr & _ & _ & Hres & Hmem).
  exists (sorted (elements (solutions fr))).
  unfold has_solution, find_all_solutions. cbn [fmap list_fmap].
  rewrite Hres. split; [reflexivity|]. split.
  - cbn [mbind result_bind mret result_ret]. f_equal.
    now destruct (sorted (elements (solutions fr))).
  - intros x. rewrite Hmem. apply rank_search_exact.
    inversion Hrank as [|? ? H1 Hrank1]; subst.
    inversion Hrank1 as [|? ? H2 Hrank2]; subst.
    inversion Hrank2 as [|? ? H3 Hrank3]; subst.
    inversion Hrank3 as [|? ? H4 _]; subst.
    repeat constructor; now apply card_rank_operand.
Qed.

(** X9: whatever four cards [draw_cards] takes from the deck of a new game,
    they are four different cards, the search on them in the order drawn
    raises nothing and returns exactly the strings of the candidates of
    value 24, and [has_solution] tells whether there is one. *)
Theorem X9_drawn_hand_is_searched_exactly (game : Game24)
    (outcome : result (list Card)) :
  Game24_init = Ok game → draw_cards game 4 outcome →
  ∃ hand l, outcome = Ok hand ∧ length hand = 4 ∧ NoDup hand ∧
            find_all_solutions hand = Ok l ∧
            has_solution hand = Ok (bool_decide (l ≠ [])) ∧
            ∀ x, x ∈ l ↔
                 reference is_24
                   ((λ card, Fraction.of_int (value card)) <$> hand) true x.
Proof.
  intros Hgame Hdraw.
  destruct standard_deck_facts as (game' & Hgame' & Hlen & Hnodup & Hranks).
  rewrite Hgame in Hgame'. injection Hgame' as <-.
  unfold draw_cards in Hdraw. rewrite Hlen in Hdraw.
  destruct (decide _) as [_|Hno] in Hdraw; [|now contradict Hno].
  destruct Hdraw as (hand & -> & Hlen4 & Hsub).
  assert (length hand = 4) as Hlen4' by lia.
  assert (Forall card_is_rank hand) as Hhand.
  { apply Forall_forall. intros card Hcard.
    apply (proj1 (Forall_forall _ _) Hranks).
    now apply (elem_of_submseteq hand). }
  destruct (length_4_inv hand Hlen4') as (c1 & c2 & c3 & c4 & ->).
  destruct (find_all_solutions_ranks c1 c2 c3 c4 Hhand)
    as (l & Hl & Hhas & Hmem).
  exists [c1; c2; c3; c4], l.
  split; [reflexivity|]. split; [reflexivity|].
  split; [now apply (submseteq_NoDup _ (deck game))|]. auto.
Qed.

Lemma X9_witness :
  ∃ l, find_all_solutions
         [{| suit := "♦"; rank := "K"; value := 13 |};
          {| suit := "♠"; rank := "A"; value := 1 |};
          {| suit := "♥"; rank := "10"; value := 10 |};
          {| suit := "♠"; rank := "2"; value := 2 |}] = Ok l.
Proof.
  destruct standard_deck_facts as (game & Hgame & _).
  destruct (X9_drawn_hand_is_searched_exactly game
              (Ok [{| suit := "♦"; rank := "K"; value := 13 |};
                   {| suit := "♠"; rank := "A"; value := 1 |};
                   {| suit := "♥"; rank := "10"; value := 10 |};
                   {| suit := "♠"; rank := "2"; value := 2 |}]) Hgame)
    as (hand & l & [= <-] & _ & _ & Hl & _).
  - revert Hgame. vm_compute. intros [= <-].
    exists [{| suit := "♦"; rank := "K"; value := 13 |};
            {| suit := "♠"; rank := "A"; value := 1 |};
            {| suit := "♥"; rank := "10"; value := 10 |};
            {| suit := "♠"; rank := "2"; value := 2 |}].
    split; [reflexivity|]. split; [reflexivity|].
    refine (bool_decide_unpack _ _). now vm_compute.
  - now exists l.
Defined.

(** * Reading the numbers *)

Lemma convert_part_range (part : string) (n : Z) :
  Input.convert_part part = Ok n → (1 ≤ n ≤ 13)%Z.
Proof.
  unfold Input.convert_part.
  repeat (destruct (String.eqb _ _); [intros [= <-]; lia|]).
  destruct (Input.isdigit _); [|discriminate].
  destruct (Text.int _) as [m|]; [|discriminate]. cbn [mbind result_bind].
  destruct (Z.leb_spec 1 m); [|discriminate].
  destruct (Z.leb_spec m 13); [|discriminate].
  cbn [andb]. intros [= <-]. lia.
Qed.

Lemma convert_parts_spec (parts : list string) (acc numbers : list Z) :
  Input.convert_parts parts acc = Ok numbers →
  ∃ ns, numbers = acc ++ ns ∧ length ns = length parts ∧
        Forall (λ n, 1 ≤ n ≤ 13)%Z ns.
Proof.
  revert acc. induction parts as [|part parts IH]; intros acc;
    cbn [Input.convert_parts].
  - intros [= <-]. exists []. now rewrite app_nil_r.
  - destruct (Input.convert_part part) as [n|e] eqn:Hn; [|discriminate].
    cbn [mbind result_bind]. intros H.
    apply IH in H as (ns & -> & Hlen & Hns).
    exists (n :: ns). rewrite <- app_assoc. split; [reflexivity|].
    split; [cbn; lia|]. constructor; [|assumption].
    now apply (convert_part_range part).
Qed.

(** A line that is accepted gives four numbers from 1 to 13. *)
Lemma parse_line_sound (line : string) (numbers : list Z) :
  Input.parse_line line = inl numbers →
  length numbers = 4 ∧ Forall (λ n, 1 ≤ n ≤ 13)%Z numbers.
Proof.
  unfold Input.parse_line.
  destruct (Input.split_line _) as [parts|]; [|discriminate].
  set (cleaned := Input.strip <$> filter _ parts).
  destruct (Nat.eqb_spec (length cleaned) 4) as [H4|]; [|discriminate].
  cbn [negb].
  destruct (Input.convert_parts cleaned []) as [ns|] eqn:Hns;
    [|discriminate].
  intros [= <-]. apply convert_parts_spec in Hns as (ns' & -> & Hlen & Hr).
  cbn [app]. split; [congruence|assumption].
Qed.

(** X10: whatever line is typed, when a round of [get_numbers_input]
    accepts it, the numbers it returns are exactly four and each of them is
    an integer from 1 to 13. *)
Theorem X10_accepted_line_gives_four_ranks (line : string)
    (numbers : list Z) :
  Input.parse_line line = inl numbers →
  length numbers = 4 ∧ Forall (λ n, 1 ≤ n ≤ 13)%Z numbers.
Proof. apply parse_line_sound. Qed.

Lemma X10_witness :
  length [1; 13; 12; 11]%Z = 4 ∧
  Forall (λ n, 1 ≤ n ≤ 13)%Z [1; 13; 12; 11]%Z.
Proof.
  apply (X10_accepted_line_gives_four_ranks " [a, K,q ,J]").
  now vm_compute.
Defined.

(** The loop of [get_numbers_input]. *)
Lemma get_numbers_input_spec (lines : list string) (numbers : list Z)
    (rest : list string) :
  Input.get_numbers_input lines = Some (numbers, rest) ↔
  ∃ refused line,
    lines = refused ++ line :: rest ∧
    Forall (λ l, ∃ why, Input.parse_line l = inr why) refused ∧
    Input.parse_line line = inl numbers.
Proof.
  induction lines as [|l lines IH]; cbn [Input.get_numbers_input].
  - split; [discriminate|].
    intros (refused & line & H & _). now destruct refused.
  - destruct (Input.parse_line l) as [ns|why] eqn:Hl.
    + split.
      * intros [= <- <-]. exists [], l. auto.
      * intros ([|l' refused] & line & Heq & Href & Hline).
        -- injection Heq as <- <-. congruence.
        -- injection Heq as <- _. inversion Href as [|? ? [why Hwhy] _].
           congruence.
    + rewrite IH. split.
      * intros (refused & line & -> & Href & Hline).
        exists (l :: refused), line. split; [reflexivity|].
        split; [|assumption]. constructor; eauto.
      * intros ([|l' refused] & line & Heq & Href & Hline).
        -- injection Heq as <- <-. congruence.
        -- injection Heq as <- ->. inversion Href; subst.
           exists refused, line. auto.
Qed.

(** X12: [get_numbers_input] skips the lines it refuses, returns the
    numbers of the first line it accepts and leaves the later lines unread;
    it returns nothing exactly when every line is refused. *)
Theorem X12_get_numbers_input_first_accepted (lines : list string) :
  (∀ numbers rest,
     Input.get_numbers_input lines = Some (numbers, rest) ↔
     ∃ refused line,
       lines = refused ++ line :: rest ∧
       Forall (λ l, ∃ why, Input.parse_line l = inr why) refused ∧
       Input.parse_line line = inl numbers) ∧
  (Input.get_numbers_input lines = None ↔
   Forall (λ l, ∃ why, Input.parse_line l = inr why) lines).
Proof.
  split; [intros numbers rest; apply get_numbers_input_spec|].
  induction lines as [|l lines IH]; cbn [Input.get_numbers_input].
  - split; [constructor|reflexivity].
  - destruct (Input.parse_line l) as [ns|why] eqn:Hl.
    + split; [discriminate|].
      intros H. inversion H as [|? ? [why Hwhy] _]. congruence.
    + rewrite IH. split.
      * intros H. constructor; eauto.
      * intros H. now inversion H.
Qed.

(** X13: the numbers that [get_numbers_input] returns can be handed to the
    search in the given order, as [manual_input_mode] does: the search
    raises nothing and returns exactly the strings of the candidates of
    value 24. *)
Theorem X13_typed_numbers_are_searched_exactly (lines : list string)
    (numbers : list Z) (rest : list string) :
  Input.get_numbers_input lines = Some (numbers, rest) →
  ∃ l, find_all_solutions_from_numbers (Fraction.of_int <$> numbers) true
       = Ok l ∧
       ∀ x, x ∈ l ↔ reference is_24 (Fraction.of_int <$> numbers) true x.
Proof.
  intros Hget.
  apply get_numbers_input_spec in Hget as (_ & line & _ & _ & Hline).
  apply parse_line_sound in Hline as [Hlen Hrank].
  destruct (length_4_inv numbers Hlen) as (n1 & n2 & n3 & n4 & ->).
  cbn [fmap list_fmap].
  destruct (find_all_solutions_from_numbers_spec
              (Fraction.of_int n1) (Fraction.of_int n2)
              (Fraction.of_int n3) (Fraction.of_int n4) true)
    as (fr & _ & _ & Hres & Hmem).
  exists (sorted (elements (solutions fr))). split; [assumption|].
  intros x. rewrite Hmem. apply rank_search_exact.
  inversion Hrank as [|? ? H1 Hrank1]; subst.
  inversion Hrank1 as [|? ? H2 Hrank2]; subst.
  inversion Hrank2 as [|? ? H3 Hrank3]; subst.
  inversion Hrank3 as [|? ? H4 _]; subst.
  repeat constructor; now apply rank_of_int.
Qed.

Lemma X13_witness :
  ∃ l, find_all_solutions_from_numbers
         (Fraction.of_int <$> [8; 3; 8; 3]%Z) true = Ok l.
Proof.
  destruct (X13_typed_numbers_are_searched_exactly
              ["8,3,8"; "8 3 8 3"; "1 1 1 1"] [8; 3; 8; 3]%Z ["1 1 1 1"])
    as (l & Hl & _).
  - now vm_compute.
  - now exists l.
Defined.

Lemma written_forms_read_back :
  Forall (λ ns, Forall (λ s, Input.parse_line s = inl ns) (written_forms ns))
    rank_quadruples.
Proof. refine (bool_decide_unpack _ _). now vm_compute. Qed.

Lemma elem_of_rank_quadruples (n1 n2 n3 n4 : Z) :
  Forall (λ n, 1 ≤ n ≤ 13)%Z [n1; n2; n3; n4] →
  [n1; n2; n3; n4] ∈ rank_quadruples.
Proof.
  intros H.
  inversion H as [|? ? H1 Hr1]; subst. inversion Hr1 as [|? ? H2 Hr2]; subst.
  inversion Hr2 as [|? ? H3 Hr3]; subst. inversion Hr3 as [|? ? H4 _]; subst.
  unfold rank_quadruples.
  apply list_elem_of_bind. exists n1. split; [|apply elem_of_seqZ; lia].
  apply list_elem_of_bind. exists n2. split; [|apply elem_of_seqZ; lia].
  apply list_elem_of_bind. exists n3. split; [|apply elem_of_seqZ; lia].
  apply list_elem_of_bind. exists n4. split; [|apply elem_of_seqZ; lia].
  now left.
Qed.

(** X11: four numbers from 1 to 13 are read back from the line that shows
    them: written as Python prints the list ([[6, 6, 2, 10]]), separated
    by commas or separated by blanks, the line is accepted and gives the
    same four numbers in the same order. *)
Theorem X11_written_numbers_are_read_back (n1 n2 n3 n4 : Z) :
  Forall (λ n, 1 ≤ n ≤ 13)%Z [n1; n2; n3; n4] →
  Input.parse_line (Input.list_str [n1; n2; n3; n4]) = inl [n1; n2; n3; n4] ∧
  Input.parse_line
    (String.concat "," (Fraction.decimal <$> [n1; n2; n3; n4]))
    = inl [n1; n2; n3; n4] ∧
  Input.parse_line
    (String.concat " " (Fraction.decimal <$> [n1; n2; n3; n4]))
    = inl [n1; n2; n3; n4].
Proof.
  intros H. apply elem_of_rank_quadruples in H.
  pose proof (proj1 (Forall_forall _ _) written_forms_read_back _ H) as Hall.
  unfold written_forms in Hall.
  inversion Hall as [|? ? H1 Hall1]; subst.
  inversion Hall1 as [|? ? H2 Hall2]; subst.
  inversion Hall2 as [|? ? H3 _]; subst. auto.
Qed.

Lemma X11_witness :
  Input.parse_line "[6, 13, 2, 10]" = inl [6; 13; 2; 10]%Z.
Proof.
  refine (proj1 (X11_written_numbers_are_read_back 6 13 2 10 _)).
  repeat constructor; lia.
Defined.

Lemma characters_read :
  Forall (λ cs, Input.parse_line (String.string_of_list_ascii cs)
                = inl (rank_of_character <$> cs))
    character_quadruples.
Proof. refine (bool_decide_unpack _ _). now vm_compute. Qed.

(** X14: a line of four characters without separators is read character by
    character: when each is one of 1 to 9 or one of the letters A, J, Q, K
    in either case, the line is accepted and gives the four ranks the
    characters stand for. *)
Theorem X14_four_characters_are_read (c1 c2 c3 c4 : Ascii.ascii) :
  Forall (λ c, c ∈ rank_characters) [c1; c2; c3; c4] →
  Input.parse_line (String c1 (String c2 (String c3 (String c4 ""))))
  = inl [rank_of_character c1; rank_of_character c2;
         rank_of_character c3; rank_of_character c4].
Proof.
  intros H.
  inversion H as [|? ? H1 Hr1]; subst. inversion Hr1 as [|? ? H2 Hr2]; subst.
  inversion Hr2 as [|? ? H3 Hr3]; subst. inversion Hr3 as [|? ? H4 _]; subst.
  apply (proj1 (Forall_forall _ _) characters_read [c1; c2; c3; c4]).
  unfold character_quadruples.
  apply list_elem_of_bind. exists c1. split; [|assumption].
  apply list_elem_of_bind. exists c2. split; [|assumption].
  apply list_elem_of_bind. exists c3. split; [|assumption].
  apply list_elem_of_bind. exists c4. split; [|assumption].
  now left.
Qed.

Lemma X14_witness : Input.parse_line "9kA1" = inl [9; 13; 1; 1]%Z.
Proof.
  apply (X14_four_characters_are_read
           (Ascii.ascii_of_N 57) (Ascii.ascii_of_N 107)
           (Ascii.ascii_of_N 65) (Ascii.ascii_of_N 49)).
  repeat constructor; refine (bool_decide_unpack _ _); now vm_compute.
Defined.
